(* ===================================================================== *)
(* Notes application: the note workflow of src/App.tsx and the storage   *)
(* access rule of amplify/storage/resource.ts, embedded and verified.    *)
(* ===================================================================== *)
(* Layout
     JsString    strings as UTF-16 code units, String.prototype.trim,
                 truthiness, number printing
     JsValue     dynamically typed property values and objects
     Helpers     readStringProp, getImageKey, buildCreateInput
     Storage     the access table of resource.ts and path matching
     Effects     the world (UI state + call trace), the services the
                 component talks to, a state-and-exception monad
     App         fetchNotes, createNote, deleteNote, the form inputs
                 and the rendered notes section
     Vocabulary  the notions the statements are written with
     Sample      concrete services and worlds
     Theorems    one section per property of the workflow, then
                 further properties of the operations, the helpers,
                 the access table, the inputs and the view               *)

From Stdlib Require Import ZArith NArith Ascii String DecimalString DecimalPos.
From stdpp Require Import base option list gmap strings fin_maps.

Local Open Scope Z_scope.
Local Open Scope string_scope.
Local Open Scope list_scope.
Local Open Scope stdpp_scope.

(* --------------------------------------------------------------------- *)
(* JsString                                                              *)
(* --------------------------------------------------------------------- *)

Module JsString.

(** A JavaScript string is a sequence of UTF-16 code units. *)
Definition jsstr : Type := list N.

(** Code units of an ASCII literal of the source text. *)
Fixpoint js (s : string) : jsstr :=
  match s with
  | EmptyString => []
  | String a s' => N_of_ascii a :: js s'
  end.

(** WhiteSpace and LineTerminator code points of ECMAScript, the ones
    [String.prototype.trim] strips: TAB, LF, VT, FF, CR, SP, NBSP, the
    Unicode space separators (Zs), LS, PS and the byte order mark. *)
Definition is_ws (c : N) : bool :=
  ((9 <=? c) && (c <=? 13) ||
   (c =? 32) || (c =? 160) || (c =? 5760) ||
   (8192 <=? c) && (c <=? 8202) ||
   (c =? 8232) || (c =? 8233) || (c =? 8239) || (c =? 8287) ||
   (c =? 12288) || (c =? 65279))%N.

Fixpoint trimStart (s : jsstr) : jsstr :=
  match s with
  | [] => []
  | c :: s' => if is_ws c then trimStart s' else s
  end.

Definition trimEnd (s : jsstr) : jsstr := reverse (trimStart (reverse s)).

(** [s.trim()] *)
Definition trim (s : jsstr) : jsstr := trimEnd (trimStart s).

(** ToBoolean on a string: only the empty string is falsy. *)
Definition truthy_str (s : jsstr) : bool :=
  match s with [] => false | _ :: _ => true end.

(** ToBoolean on [string | undefined]. *)
Definition truthy (o : option jsstr) : bool :=
  match o with Some s => truthy_str s | None => false end.

(** [x || undefined] for [x : string | undefined]. *)
Definition or_undefined (o : option jsstr) : option jsstr :=
  if truthy o then o else None.

Fixpoint uint_digits (d : Decimal.uint) : jsstr :=
  match d with
  | Decimal.Nil => []
  | Decimal.D0 d' => 48%N :: uint_digits d'
  | Decimal.D1 d' => 49%N :: uint_digits d'
  | Decimal.D2 d' => 50%N :: uint_digits d'
  | Decimal.D3 d' => 51%N :: uint_digits d'
  | Decimal.D4 d' => 52%N :: uint_digits d'
  | Decimal.D5 d' => 53%N :: uint_digits d'
  | Decimal.D6 d' => 54%N :: uint_digits d'
  | Decimal.D7 d' => 55%N :: uint_digits d'
  | Decimal.D8 d' => 56%N :: uint_digits d'
  | Decimal.D9 d' => 57%N :: uint_digits d'
  end.

(** Number::toString of an integral time value inside a template literal.
    [Date.now()] is an integer of magnitude at most 8.64e15, so the decimal
    digits are printed in full, with a leading minus sign below zero. *)
Definition number_toString (z : Z) : jsstr :=
  match z with
  | Z0 => [48%N]
  | Zpos p => uint_digits (Pos.to_uint p)
  | Zneg p => 45%N :: uint_digits (Pos.to_uint p)
  end.

End JsString.

Export JsString.

(* --------------------------------------------------------------------- *)
(* JsValue                                                               *)
(* --------------------------------------------------------------------- *)

Module JsValue.

(** Property values the workflow can meet in a record. Only the
    distinction string / not a string is ever inspected. *)
Inductive value : Type :=
  | VUndefined
  | VNull
  | VBool (b : bool)
  | VNum (z : Z)
  | VStr (s : jsstr).

#[global] Instance value_eq_dec : EqDecision value.
Proof. solve_decision. Defined.

(** A plain object ([Record<string, unknown>]): property name to value.
    Property names are identifiers of the source text. *)
Abbreviation obj := (gmap string value).

(** [o[key]]: a missing property reads as [undefined]. *)
Definition get (o : obj) (key : string) : value :=
  default VUndefined (o !! key).

(** [string | undefined] stored as a property value. *)
Definition of_opt (o : option jsstr) : value :=
  match o with Some s => VStr s | None => VUndefined end.

End JsValue.

Export JsValue.

(* --------------------------------------------------------------------- *)
(* Completions                                                           *)
(* --------------------------------------------------------------------- *)

(** What can be thrown: the engine's TypeError (property access on null)
    or the rejection of a call to one of the services. *)
Inductive exn : Type :=
  | TypeError
  | Rejected (reason : jsstr).

(** The outcome of evaluating a call: a value or a thrown exception. *)
Inductive completion (A : Type) : Type :=
  | Normal (a : A)
  | Throw (e : exn).

Arguments Normal {A} a.
Arguments Throw {A} e.

#[global] Instance completion_bind : MBind completion :=
  λ A B f c, match c with Normal a => f a | Throw e => Throw e end.

(* --------------------------------------------------------------------- *)
(* Helpers of App.tsx                                                    *)
(* --------------------------------------------------------------------- *)

(** [readStringProp(obj, key)]. The argument is nullable at run time (the
    casts of the callers are erased): indexing null raises a TypeError. *)
Definition readStringProp (o : option obj) (key : string)
  : completion (option jsstr) :=
  match o with
  | None => Throw TypeError
  | Some m =>
      let value := get m key in
      Normal (match value with VStr s => Some s | _ => None end)
  end.

(** [getImageKey(note)]: [a ?? b] evaluates [b] only when [a] is nullish. *)
Definition getImageKey (note : option obj) : completion (option jsstr) :=
  r ← readStringProp note "imageKey";
  match r with
  | Some s => Normal (Some s)
  | None => readStringProp note "image"
  end.

Arguments getImageKey : simpl never.

(** The [base] argument of buildCreateInput, as createNote builds it. *)
Record Base : Type := mkBase {
  base_title : jsstr;
  base_content : option jsstr;
}.

(** [{ ...base }]: both properties are own properties of the literal, so
    [content] is copied also when its value is [undefined]. *)
Definition spread_base (base : Base) : obj :=
  <["content" := of_opt (base_content base)]>
    (<["title" := VStr (base_title base)]> ∅).

(** [buildCreateInput(base, imageKey)] *)
Definition buildCreateInput (base : Base) (imageKey : option jsstr) : obj :=
  let payload := spread_base base in
  match imageKey with
  | Some k =>
      if truthy_str k
      then <["image" := VStr k]> (<["imageKey" := VStr k]> payload)
      else payload
  | None => payload
  end.

(** The template literal [`public/notes/${Date.now()}_${name}`]. *)
Definition imagePath (now : Z) (name : jsstr) : jsstr :=
  js "public/notes/" ++ number_toString now ++ js "_" ++ name.

(* --------------------------------------------------------------------- *)
(* Storage access (amplify/storage/resource.ts)                          *)
(* --------------------------------------------------------------------- *)

Module Storage.

Inductive action : Type := ActRead | ActWrite | ActDelete.

#[global] Instance action_eq_dec : EqDecision action.
Proof. solve_decision. Defined.

(** [allow.entity("identity")]: the identity that owns the path. *)
Inductive grantee : Type := EntityIdentity.

(** A path pattern, token by token: literal text, the reserved token
    [{entity_id}] and the trailing wildcard. *)
Inductive tok : Type :=
  | Lit (s : string)
  | EntityId
  | Star.

Definition render_tok (t : tok) : string :=
  match t with
  | Lit s => s
  | EntityId => "{entity_id}"
  | Star => "*"
  end.

(** The pattern as it is spelled in the source. *)
Definition render (p : list tok) : string :=
  foldr (λ t acc, render_tok t +:+ acc) "" p.

Record rule : Type := mkRule {
  rule_path : list tok;
  rule_grants : list (grantee * list action);
}.

Record storage_def : Type := mkStorage {
  storage_name : string;
  storage_access : list rule;
}.

(** [defineStorage({ name, access })] of resource.ts. *)
Definition storage : storage_def :=
  {| storage_name := "amplifyNotesDrive";
     storage_access :=
       [ {| rule_path := [Lit "media/"; EntityId; Lit "/"; Star];
            rule_grants :=
              [ (EntityIdentity, [ActRead; ActWrite; ActDelete]) ] |} ] |}.

(** A pattern once the reserved token is replaced by the identifier of
    the identity making the request. *)
Inductive gchar : Type :=
  | GChar (c : N)
  | GStar.

Definition expand_tok (entity_id : jsstr) (t : tok) : list gchar :=
  match t with
  | Lit s => GChar <$> js s
  | EntityId => GChar <$> entity_id
  | Star => [GStar]
  end.

Definition expand (entity_id : jsstr) (p : list tok) : list gchar :=
  p ≫= expand_tok entity_id.

(** Does the object path match the expanded pattern? The wildcard stands
    for any run of code units. *)
Fixpoint glob_match (g : list gchar) : jsstr → bool :=
  match g with
  | [] => λ s, match s with [] => true | _ => false end
  | GChar c :: g' =>
      λ s, match s with
           | [] => false
           | c' :: s' => (c =? c')%N && glob_match g' s'
           end
  | GStar :: g' =>
      fix star (s : jsstr) : bool :=
        glob_match g' s ||
        match s with [] => false | _ :: s' => star s' end
  end.

Definition rule_allows (r : rule) (entity_id : jsstr) (a : action)
    (path : jsstr) : bool :=
  glob_match (expand entity_id (rule_path r)) path &&
  existsb (λ g, bool_decide (a ∈ g.2)) (rule_grants r).

(** May the identity [entity_id] perform [a] on the object at [path]?
    Access is granted only by a rule of the table. *)
Definition allowed (d : storage_def) (entity_id : jsstr) (a : action)
    (path : jsstr) : bool :=
  existsb (λ r, rule_allows r entity_id a path) (storage_access d).

End Storage.

(* --------------------------------------------------------------------- *)
(* Effects: the world, the services, the monad                           *)
(* --------------------------------------------------------------------- *)

(** A [File] chosen in the form. *)
Record File : Type := mkFile {
  file_name : jsstr;
  file_type : jsstr;
  file_data : list N;
}.

(** The [form] state of the component. *)
Record Form : Type := mkForm {
  title : jsstr;
  content : option jsstr;
  imageFile : option File;
}.

(** Everything the component does that is visible from outside, in the
    order it happens: state updates, calls to the record store and to the
    blob store, console output and the calls on the submit event. *)
Inductive event : Type :=
  | EvSetLoading (b : bool)
  | EvSetNotes (ns : list obj)
  | EvSetForm (f : Form)
  | EvPreventDefault
  | EvFormReset
  | EvConsoleError (label : string) (errors : list jsstr)
  | EvList
  | EvCreate (input : obj)
  | EvDelete (id : jsstr)
  | EvUpload (path : jsstr) (data : File) (contentType : jsstr)
  | EvGetUrl (path : jsstr).

(** The component state of [App] together with the trace so far. *)
Record World : Type := mkWorld {
  notes : list obj;
  loading : bool;
  form : Form;
  trace : list event;
}.

(** The collaborators. Each field says how the service answers a call:
    with a value or by throwing. The record store answers list and create
    with [{ data, errors }], where [data] may be null; an absent [errors]
    is the empty list. [svc_getUrl] answers with the string form of the
    [url] of its output; its first argument numbers the calls issued by
    one operation, so two calls for the same path may settle differently. *)
Record Services : Type := mkServices {
  svc_list : completion (option (list obj) * list jsstr);
  svc_create : obj → completion (option obj * list jsstr);
  svc_delete : jsstr → completion unit;
  svc_upload : jsstr → File → completion unit;
  svc_getUrl : nat → jsstr → completion jsstr;
  svc_now : Z;
}.

(** Computations: state passing over the world, with exceptions. *)
Definition M (A : Type) : Type := World → completion A * World.

#[global] Instance M_ret : MRet M := λ A a w, (Normal a, w).

#[global] Instance M_bind : MBind M :=
  λ A B f m w,
    match m w with
    | (Normal a, w') => f a w'
    | (Throw e, w') => (Throw e, w')
    end.

Definition lift {A} (c : completion A) : M A := λ w, (c, w).

Definition emit (e : event) : M unit :=
  λ w, (Normal (),
        {| notes := notes w; loading := loading w; form := form w;
           trace := trace w ++ [e] |}).

Definition get_notes : M (list obj) := λ w, (Normal (notes w), w).
Definition get_form : M Form := λ w, (Normal (form w), w).

Definition put_notes (ns : list obj) : M unit :=
  λ w, (Normal (),
        {| notes := ns; loading := loading w; form := form w;
           trace := trace w |}).

Definition put_loading (b : bool) : M unit :=
  λ w, (Normal (),
        {| notes := notes w; loading := b; form := form w;
           trace := trace w |}).

Definition put_form (f : Form) : M unit :=
  λ w, (Normal (),
        {| notes := notes w; loading := loading w; form := f;
           trace := trace w |}).

(** [try { body } catch { handler }] *)
Definition try_catch {A} (body : M A) (handler : exn → M A) : M A :=
  λ w, match body w with
       | (Normal a, w') => (Normal a, w')
       | (Throw e, w') => handler e w'
       end.

(** [try { body } finally { fin }]: [fin] runs on every exit of [body];
    the completion of [body] stands unless [fin] throws itself. *)
Definition try_finally {A} (body : M A) (fin : M unit) : M A :=
  λ w, match body w with
       | (r, w') =>
           match fin w' with
           | (Normal _, w'') => (r, w'')
           | (Throw e, w'') => (Throw e, w'')
           end
       end.

(** The promises of a fan-out: every callback is started, in order, and
    runs to its settlement whatever the others do. *)
Fixpoint settle_all {B} (cs : list (M B)) (w : World)
  : list (completion B) * World :=
  match cs with
  | [] => ([], w)
  | c :: cs' =>
      match c w with
      | (r, w1) =>
          match settle_all cs' w1 with
          | (rs, w2) => (r :: rs, w2)
          end
      end
  end.

(** The values of the settled promises, or a rejection among them. *)
Fixpoint collect {B} (rs : list (completion B)) : completion (list B) :=
  match rs with
  | [] => Normal []
  | Normal b :: rs' => bs ← collect rs'; Normal (b :: bs)
  | Throw e :: _ => Throw e
  end.

(** [await Promise.all(promises)] *)
Definition Promise_all {B} (cs : list (M B)) : M (list B) :=
  λ w, match settle_all cs w with (rs, w') => (collect rs, w') end.

(* --------------------------------------------------------------------- *)
(* The component: src/App.tsx                                            *)
(* --------------------------------------------------------------------- *)

Section App.

Context (svc : Services).

(* -- state setters and service calls -- *)

Definition setLoading (b : bool) : M unit :=
  emit (EvSetLoading b);; put_loading b.

(** [setNotes(enriched)] and [setNotes((prev) => f(prev))] *)
Definition setNotes (f : list obj → list obj) : M unit :=
  prev ← get_notes;
  emit (EvSetNotes (f prev));; put_notes (f prev).

Definition setForm (f : Form) : M unit :=
  emit (EvSetForm f);; put_form f.

Definition console_error (label : string) (errors : list jsstr) : M unit :=
  emit (EvConsoleError label errors).

(** [if (errors?.length) console.error(label, errors)] *)
Definition log_errors (label : string) (errors : list jsstr) : M unit :=
  match errors with
  | [] => mret ()
  | _ :: _ => console_error label errors
  end.

Definition Todo_list : M (option (list obj) * list jsstr) :=
  emit EvList;; lift (svc_list svc).

Definition Todo_create (input : obj) : M (option obj * list jsstr) :=
  emit (EvCreate input);; lift (svc_create svc input).

Definition Todo_delete (id : jsstr) : M unit :=
  emit (EvDelete id);; lift (svc_delete svc id).

Definition uploadData (path : jsstr) (data : File) : M unit :=
  emit (EvUpload path data (file_type data));; lift (svc_upload svc path data).

Definition getUrl (call : nat) (path : jsstr) : M jsstr :=
  emit (EvGetUrl path);; lift (svc_getUrl svc call path).

(** [{ ...n, imageUrl: url.toString() }] *)
Definition with_imageUrl (n : obj) (url : jsstr) : obj :=
  <["imageUrl" := VStr url]> n.

(** The callback mapped over the fetched records; [i] is the position of
    the record, which numbers its resolution call. *)
Definition enrich (i : nat) (n : obj) : M obj :=
  key ← lift (getImageKey (Some n));
  match key with
  | Some k =>
      if truthy_str k
      then try_catch (url ← getUrl i k; mret (with_imageUrl n url))
                     (λ _, mret n)
      else mret n
  | None => mret n
  end.

(** [fetchNotes()] *)
Definition fetchNotes : M unit :=
  setLoading true;;
  try_finally
    ('(data, errors) ← Todo_list;
     log_errors "List errors:" errors;;
     enriched ← Promise_all (imap enrich (default [] data));
     setNotes (λ _, enriched))
    (setLoading false).

(** The cast [created as NoteView] on the way into the list. It is only
    reached with an object: [getImageKey] has thrown on null before. *)
Definition as_NoteView (created : option obj) : completion obj :=
  match created with
  | Some c => Normal c
  | None => Throw TypeError
  end.

(** [createNote(e)] *)
Definition createNote : M unit :=
  emit EvPreventDefault;;
  f ← get_form;
  let title := trim (title f) in
  if negb (truthy_str title) then mret ()
  else
    let base := {| base_title := title;
                   base_content := or_undefined (trim <$> content f) |} in
    imagePath ←
      match imageFile f with
      | Some file =>
          let p := imagePath (svc_now svc) (file_name file) in
          uploadData p file;; mret (Some p)
      | None => mret None
      end;
    let input := buildCreateInput base imagePath in
    '(created, errors) ← Todo_create input;
    log_errors "Create errors:" errors;;
    key ← lift (getImageKey created);
    item ← lift (as_NoteView created);
    newItem ←
      match key with
      | Some k =>
          if truthy_str k
          then try_catch (url ← getUrl 0 k; mret (with_imageUrl item url))
                         (λ _, mret item)
          else mret item
      | None => mret item
      end;
    setNotes (λ prev, newItem :: prev);;
    setForm {| title := []; content := Some []; imageFile := None |};;
    emit EvFormReset.

(** [deleteNote(id)] *)
Definition deleteNote (id : jsstr) : M unit :=
  Todo_delete id;;
  setNotes (λ prev,
    filter (λ n, get n "id" ≠ VStr id) prev).

End App.

(* --------------------------------------------------------------------- *)
(* createNote around its last suspension                                 *)
(* --------------------------------------------------------------------- *)

Section Suspended.

Context (svc : Services).

(** createNote up to its list update (lines 105 to 138): everything it
    awaits. The result is the item it is about to prepend, or nothing
    when it returned at line 107. *)
Definition createNote_requests : M (option obj) :=
  emit EvPreventDefault;;
  f ← get_form;
  let title := trim (title f) in
  if negb (truthy_str title) then mret None
  else
    let base := {| base_title := title;
                   base_content := or_undefined (trim <$> content f) |} in
    imagePath ←
      match imageFile f with
      | Some file =>
          let p := imagePath (svc_now svc) (file_name file) in
          uploadData svc p file;; mret (Some p)
      | None => mret None
      end;
    let input := buildCreateInput base imagePath in
    '(created, errors) ← Todo_create svc input;
    log_errors "Create errors:" errors;;
    key ← lift (getImageKey created);
    item ← lift (as_NoteView created);
    newItem ←
      match key with
      | Some k =>
          if truthy_str k
          then try_catch (url ← getUrl svc 0 k; mret (with_imageUrl item url))
                         (λ _, mret item)
          else mret item
      | None => mret item
      end;
    mret (Some newItem).

(** The synchronous end of createNote (lines 140 to 142). The updater of
    line 140 receives the list that is current when it runs. *)
Definition createNote_commit (newItem : obj) : M unit :=
  setNotes (λ prev, newItem :: prev);;
  setForm {| title := []; content := Some []; imageFile := None |};;
  emit EvFormReset.

Definition createNote_resume (r : option obj) : M unit :=
  match r with
  | Some newItem => createNote_commit newItem
  | None => mret ()
  end.

(** A run of createNote during whose last await another operation of the
    component (a Refresh, a Delete) runs to its end: the other operation
    finds the state createNote left at the await, and createNote resumes
    on the state the other operation left, whatever its completion. The
    last await is the URL resolution of line 133 when there is one, else
    the create call of line 125; in that case the console entry of line
    126 is really written after the other operation, which changes its
    place in the trace and nothing in the state. *)
Definition createNote_during (other : M unit) : M unit :=
  λ w, match createNote_requests w with
       | (Normal r, w1) => createNote_resume r (other w1).2
       | (Throw e, w1) => (Throw e, w1)
       end.

End Suspended.

(* --------------------------------------------------------------------- *)
(* The component: form inputs and the rendered notes section             *)
(* --------------------------------------------------------------------- *)

(** [setForm((f) => g(f))] *)
Definition setForm_with (g : Form → Form) : M unit :=
  f ← get_form;
  emit (EvSetForm (g f));; put_form (g f).

(** The title input: [setForm((f) => ({ ...f, title: e.target.value }))] *)
Definition onTitleChange (value : jsstr) : M unit :=
  setForm_with (λ f,
    {| title := value; content := content f; imageFile := imageFile f |}).

(** The content textarea. *)
Definition onContentChange (value : jsstr) : M unit :=
  setForm_with (λ f,
    {| title := title f; content := Some value; imageFile := imageFile f |}).

(** The file input: [imageFile: e.target.files?.[0] ?? null], where
    [files] is a FileList or null. *)
Definition onFileChange (files : option (list File)) : M unit :=
  setForm_with (λ f,
    {| title := title f; content := content f;
       imageFile := files ≫= head |}).

(** ToBoolean on a property value. *)
Definition truthy_value (v : value) : bool :=
  match v with
  | VUndefined | VNull => false
  | VBool b => b
  | VNum z => negb (z =? 0)%Z
  | VStr s => truthy_str s
  end.

(** The picture of a list item: [<img src alt>] or the placeholder. *)
Inductive thumbnail : Type :=
  | Img (src alt : value)
  | NoImage.

(** One [<li>] of the list: its key, picture, heading, the optional
    content paragraph and the id its Delete button passes to deleteNote. *)
Record NoteItem : Type := mkItem {
  li_key : value;
  li_thumb : thumbnail;
  li_title : value;
  li_content : option value;
  li_delete : value;
}.

(** The body of [notes.map((note) => <li> ... </li>)]. *)
Definition renderNote (note : obj) : NoteItem :=
  {| li_key := get note "id";
     li_thumb :=
       if truthy_value (get note "imageUrl")
       then Img (get note "imageUrl") (get note "title")
       else NoImage;
     li_title := get note "title";
     li_content :=
       if truthy_value (get note "content")
       then Some (get note "content") else None;
     li_delete := get note "id" |}.

(** The "Your notes" section: the Refresh button, the hint shown for an
    empty list and the list itself. *)
Record NotesSection : Type := mkSection {
  refresh_disabled : bool;
  refresh_label : string;
  empty_hint : bool;
  list_items : list NoteItem;
}.

Definition renderNotes (w : World) : NotesSection :=
  {| refresh_disabled := loading w;
     refresh_label := if loading w then "Refreshing..." else "Refresh";
     empty_hint := (length (notes w) =? 0)%nat && negb (loading w);
     list_items := renderNote <$> notes w |}.

(* --------------------------------------------------------------------- *)
(* Vocabulary of the statements                                          *)
(* --------------------------------------------------------------------- *)

(** Whitespace-only strings, the empty one included. *)
Definition blank (s : jsstr) : Prop := Forall (λ c, is_ws c = true) s.

(** The record carries the image key [k]: [k] is the string stored under
    imageKey or, when imageKey holds no string, the string stored under
    image (the two names the record model may use for the key). *)
Definition holds_image_key (n : obj) (k : jsstr) : Prop :=
  n !! "imageKey" = Some (VStr k) ∨
  ((∀ s, n !! "imageKey" ≠ Some (VStr s)) ∧ n !! "image" = Some (VStr k)).

(** The world after more events. *)
Definition add_trace (w : World) (evs : list event) : World :=
  {| notes := notes w; loading := loading w; form := form w;
     trace := trace w ++ evs |}.

Section Vocabulary.

Context (svc : Services).

(** The image key a record is resolved under: the detected key, when it
    is a non-empty string. *)
Definition resolvable (n : obj) : option jsstr :=
  match getImageKey (Some n) with
  | Normal (Some k) => if truthy_str k then Some k else None
  | _ => None
  end.

(** What the callback settles to, and the call it issues. *)
Definition enriched (i : nat) (n : obj) : obj :=
  match resolvable n with
  | Some k =>
      match svc_getUrl svc i k with
      | Normal url => with_imageUrl n url
      | Throw _ => n
      end
  | None => n
  end.

Definition enrich_calls (n : obj) : list event :=
  match resolvable n with
  | Some k => [EvGetUrl k]
  | None => []
  end.

(** The console output of a list or create answer. *)
Definition logged (label : string) (errors : list jsstr) : list event :=
  match errors with
  | [] => []
  | _ :: _ => [EvConsoleError label errors]
  end.

(** The pieces createNote computes from the form before it calls out. *)
Definition form_base (f : Form) : Base :=
  {| base_title := trim (title f);
     base_content := or_undefined (trim <$> content f) |}.

Definition upload_path (f : Form) : option jsstr :=
  (λ file, imagePath (svc_now svc) (file_name file)) <$> imageFile f.

Definition upload_events (f : Form) : list event :=
  match imageFile f with
  | Some file =>
      [EvUpload (imagePath (svc_now svc) (file_name file)) file
                (file_type file)]
  | None => []
  end.

(** The upload, when there is one, settles without throwing. *)
Definition upload_ok (f : Form) : Prop :=
  match imageFile f with
  | Some file =>
      svc_upload svc (imagePath (svc_now svc) (file_name file)) file
      = Normal ()
  | None => True
  end.

Definition create_input (f : Form) : obj :=
  buildCreateInput (form_base f) (upload_path f).

Definition cleared_form : Form :=
  {| title := []; content := Some []; imageFile := None |}.

(** The events of createNote after the create call. *)
Definition after_create (w : World) : list event :=
  match svc_create svc (create_input (form w)) with
  | Throw _ => []
  | Normal (None, errors) => logged "Create errors:" errors
  | Normal (Some c, errors) =>
      logged "Create errors:" errors ++ enrich_calls c ++
      [EvSetNotes (enriched 0 c :: notes w);
       EvSetForm cleared_form; EvFormReset]
  end.

End Vocabulary.

(** The ids of a list of notes, [n.id] for each element, and the
    invariant of the in-memory list. *)
Definition ids (ns : list obj) : list value := (λ n, get n "id") <$> ns.

Definition unique_ids (ns : list obj) : Prop := NoDup (ids ns).

(** The paths of the URL resolution calls of a trace, in order. *)
Definition getUrl_calls (tr : list event) : list jsstr :=
  omap (λ e, match e with EvGetUrl p => Some p | _ => None end) tr.

(** What a trace wrote to the console, in order. *)
Definition console_output (tr : list event) : list (string * list jsstr) :=
  omap (λ e, match e with
             | EvConsoleError label errors => Some (label, errors)
             | _ => None
             end) tr.

(** The calls to the record store and to the blob store. *)
Definition is_list_call (e : event) : bool :=
  match e with EvList => true | _ => false end.
Definition is_create_call (e : event) : bool :=
  match e with EvCreate _ => true | _ => false end.
Definition is_delete_call (e : event) : bool :=
  match e with EvDelete _ => true | _ => false end.
Definition is_upload_call (e : event) : bool :=
  match e with EvUpload _ _ _ => true | _ => false end.
Definition is_getUrl_call (e : event) : bool :=
  match e with EvGetUrl _ => true | _ => false end.

(* --------------------------------------------------------------------- *)
(* Sample services and worlds                                            *)
(* --------------------------------------------------------------------- *)

Module Sample.

Definition photo : File :=
  {| file_name := js "cat.png"; file_type := js "image/png";
     file_data := [137; 80; 78; 71]%N |}.

Definition note1 : obj :=
  <["imageKey" := VStr (js "public/notes/1_a.png")]>
    (<["title" := VStr (js "first")]> (<["id" := VStr (js "n1")]> ∅)).

Definition note2 : obj :=
  <["title" := VStr (js "second")]> (<["id" := VStr (js "n2")]> ∅).

Definition note3 : obj :=
  <["image" := VStr (js "public/notes/3_c.png")]>
    (<["title" := VStr (js "third")]> (<["id" := VStr (js "n3")]> ∅)).

(** A record store holding three notes; the blob store fails to resolve
    the URL of the third. Create answers with the input and a new id. *)
Definition services : Services :=
  {| svc_list := Normal (Some [note1; note2; note3], []);
     svc_create := λ input,
       Normal (Some (<["id" := VStr (js "n9")]> input), []);
     svc_delete := λ _, Normal ();
     svc_upload := λ _ _, Normal ();
     svc_getUrl := λ i path,
       match i with
       | 2%nat => Throw (Rejected (js "NotFound"))
       | _ => Normal (js "https://blobs.example/" ++ path)
       end;
     svc_now := 1700000000000 |}.

(** The same, with a record store that refuses to create. *)
Definition refusing : Services :=
  {| svc_list := svc_list services;
     svc_create := λ _, Normal (None, [js "Unauthorized"]);
     svc_delete := svc_delete services;
     svc_upload := svc_upload services;
     svc_getUrl := svc_getUrl services;
     svc_now := svc_now services |}.

(** The same, with a blob store that rejects uploads. *)
Definition no_upload : Services :=
  {| svc_list := svc_list services;
     svc_create := svc_create services;
     svc_delete := svc_delete services;
     svc_upload := λ _ _, Throw (Rejected (js "AccessDenied"));
     svc_getUrl := svc_getUrl services;
     svc_now := svc_now services |}.

Definition world (f : Form) : World :=
  {| notes := [note2]; loading := false; form := f; trace := [] |}.

Definition titled : Form :=
  {| title := js " My Title "; content := Some (js " body ");
     imageFile := None |}.

Definition with_photo : Form :=
  {| title := js "Cat"; content := Some (js "  ");
     imageFile := Some photo |}.

Definition spaces : Form :=
  {| title := js "   "; content := Some (js "x"); imageFile := Some photo |}.

(** A record store whose create call fails outright. *)
Definition unreachable : Services :=
  {| svc_list := svc_list services;
     svc_create := λ _, Throw (Rejected (js "NetworkError"));
     svc_delete := λ _, Throw (Rejected (js "NetworkError"));
     svc_upload := svc_upload services;
     svc_getUrl := svc_getUrl services;
     svc_now := svc_now services |}.

(** The record store once the note of [with_photo] has been created: it
    lists the new record after the one it had. *)
Definition cat9 : obj :=
  <["imageKey" := VStr (js "public/notes/1700000000000_cat.png")]>
    (<["title" := VStr (js "Cat")]> (<["id" := VStr (js "n9")]> ∅)).

Definition grown : Services :=
  {| svc_list := Normal (Some [note2; cat9], []);
     svc_create := svc_create services;
     svc_delete := svc_delete services;
     svc_upload := svc_upload services;
     svc_getUrl := svc_getUrl services;
     svc_now := svc_now services |}.

(** A record store that answers the list request with errors only. *)
Definition denied_list : Services :=
  {| svc_list := Normal (None, [js "Unauthorized"]);
     svc_create := svc_create services;
     svc_delete := svc_delete services;
     svc_upload := svc_upload services;
     svc_getUrl := svc_getUrl services;
     svc_now := svc_now services |}.

(** A record with an empty imageKey next to a key under image. *)
Definition shadowed : obj :=
  <["image" := VStr (js "public/notes/4_d.png")]>
    (<["imageKey" := VStr []]> (<["id" := VStr (js "n4")]> ∅)).

Definition shadowing : Services :=
  {| svc_list := Normal (Some [shadowed], []);
     svc_create := svc_create services;
     svc_delete := svc_delete services;
     svc_upload := svc_upload services;
     svc_getUrl := svc_getUrl services;
     svc_now := svc_now services |}.

End Sample.

(* ===================================================================== *)
(* Theorems                                                              *)
(* ===================================================================== *)

(* --------------------------------------------------------------------- *)
(* Strings: what trim removes and what it keeps                          *)
(* --------------------------------------------------------------------- *)

Section Trim.

Implicit Types (s : jsstr) (c : N).

Lemma trimStart_decomp s :
  ∃ l, s = l ++ trimStart s ∧ blank l.
Proof.
  induction s as [|c s [l [Hl Hb]]]; simpl.
  - exists []. split; [done | constructor].
  - destruct (is_ws c) eqn:Hc.
    + exists (c :: l). split; [simpl; congruence | by constructor].
    + exists []. split; [done | constructor].
Qed.

Lemma trimStart_head s c : head (trimStart s) = Some c → is_ws c = false.
Proof.
  induction s as [|c' s IH]; simpl; [done |].
  destruct (is_ws c') eqn:Hc; [done |].
  simpl. intros [= <-]. done.
Qed.

Lemma trimStart_blank s : blank s → trimStart s = [].
Proof. induction 1 as [|c s Hc _ IH]; simpl; [done | by rewrite Hc]. Qed.

Lemma trimStart_nil_blank s : trimStart s = [] → blank s.
Proof.
  intros H. destruct (trimStart_decomp s) as [l [Hl Hb]].
  rewrite H, app_nil_r in Hl. by subst.
Qed.

Lemma trimStart_snoc s c :
  is_ws c = false → trimStart (s ++ [c]) = trimStart s ++ [c].
Proof.
  intros Hc. induction s as [|c' s IH]; simpl.
  - by rewrite Hc.
  - destruct (is_ws c'); [done | done].
Qed.

Lemma trimEnd_cons s c : is_ws c = false → trimEnd (c :: s) = c :: trimEnd s.
Proof.
  intros Hc. unfold trimEnd. rewrite reverse_cons.
  rewrite trimStart_snoc by done. by rewrite reverse_snoc.
Qed.

Lemma trimEnd_decomp s : ∃ r, s = trimEnd s ++ r ∧ blank r.
Proof.
  unfold trimEnd. destruct (trimStart_decomp (reverse s)) as [l [Hl Hb]].
  exists (reverse l). split.
  - rewrite <- reverse_app, <- Hl. by rewrite reverse_involutive.
  - by apply Forall_reverse.
Qed.

Lemma trimEnd_last s c : last (trimEnd s) = Some c → is_ws c = false.
Proof.
  unfold trimEnd. rewrite last_reverse. apply trimStart_head.
Qed.

(** [trim] removes a blank prefix and a blank suffix, nothing else, and
    what is left neither starts nor ends with whitespace. *)
Lemma trim_decomp s :
  ∃ l r, s = l ++ trim s ++ r ∧ blank l ∧ blank r ∧
         (∀ c, head (trim s) = Some c → is_ws c = false) ∧
         (∀ c, last (trim s) = Some c → is_ws c = false).
Proof.
  destruct (trimStart_decomp s) as [l [Hl Hbl]].
  destruct (trimEnd_decomp (trimStart s)) as [r [Hr Hbr]].
  exists l, r. unfold trim. repeat split; [congruence | done | done | |].
  - intros c Hc. destruct (trimStart s) as [|c' t] eqn:Ht; [done |].
    assert (Hc' : is_ws c' = false).
    { apply (trimStart_head s). by rewrite Ht. }
    rewrite trimEnd_cons in Hc by done. simpl in Hc. congruence.
  - apply trimEnd_last.
Qed.

Lemma trim_blank s : blank s → trim s = [].
Proof. intros H. unfold trim. by rewrite (trimStart_blank s H). Qed.

Lemma trim_nil_blank s : trim s = [] → blank s.
Proof.
  intros H. destruct (trim_decomp s) as (l & r & Hs & Hl & Hr & _).
  rewrite H in Hs. simpl in Hs. subst s. by apply Forall_app.
Qed.

Lemma truthy_trim_false s : truthy_str (trim s) = false ↔ blank s.
Proof.
  split.
  - intros H. apply trim_nil_blank. by destruct (trim s).
  - intros H. by rewrite trim_blank.
Qed.

End Trim.

(* --------------------------------------------------------------------- *)
(* Running the monad                                                     *)
(* --------------------------------------------------------------------- *)

(** Unfolds the operations of the monad and of the component, so that a
    run on a world reduces to a pair of a completion and a world. *)
Ltac run :=
  unfold setNotes, setLoading, setForm, log_errors, console_error,
    Todo_list, Todo_create, Todo_delete, uploadData, getUrl,
    try_catch, try_finally, emit, lift, get_notes, get_form,
    put_notes, put_loading, put_form,
    mbind, mret, M_bind, M_ret in *;
  cbn [fst snd notes loading form trace] in *.

(** The events an operation appended to the trace are read off after the
    old trace. *)
Lemma app_assoc_cons {A} (l : list A) (x : A) (k : list A) :
  (l ++ [x]) ++ k = l ++ x :: k.
Proof. by rewrite <- app_assoc. Qed.

Section DeleteNote.

Context (svc : Services).

Lemma deleteNote_ok w id :
  svc_delete svc id = Normal () →
  deleteNote svc id w =
    (Normal (),
     {| notes := filter (λ n, get n "id" ≠ VStr id) (notes w);
        loading := loading w; form := form w;
        trace := trace w ++
                 [EvDelete id;
                  EvSetNotes (filter (λ n, get n "id" ≠ VStr id) (notes w))] |}).
Proof.
  intros H. unfold deleteNote. run. rewrite H.
  by rewrite app_assoc_cons.
Qed.

Lemma deleteNote_throw w id e :
  svc_delete svc id = Throw e →
  deleteNote svc id w =
    (Throw e,
     {| notes := notes w; loading := loading w; form := form w;
        trace := trace w ++ [EvDelete id] |}).
Proof. intros H. unfold deleteNote. run. by rewrite H. Qed.

End DeleteNote.

(* --------------------------------------------------------------------- *)
(* fetchNotes, step by step                                              *)
(* --------------------------------------------------------------------- *)

Lemma add_trace_nil w : add_trace w [] = w.
Proof. destruct w. unfold add_trace. simpl. by rewrite app_nil_r. Qed.

Lemma add_trace_app w evs1 evs2 :
  add_trace (add_trace w evs1) evs2 = add_trace w (evs1 ++ evs2).
Proof. unfold add_trace. simpl. by rewrite app_assoc. Qed.

Section FetchNotes.

Context (svc : Services).

Lemma getImageKey_total (n : obj) : ∃ r, getImageKey (Some n) = Normal r.
Proof.
  unfold getImageKey, readStringProp. cbn.
  destruct (get n "imageKey"); cbn; eauto.
Qed.

Lemma enrich_run i n w :
  enrich svc i n w = (Normal (enriched svc i n), add_trace w (enrich_calls n)).
Proof.
  unfold enrich, enriched, enrich_calls, resolvable.
  destruct (getImageKey_total n) as [r Hr]. run. rewrite Hr.
  destruct r as [k|]; [| by rewrite add_trace_nil].
  destruct (truthy_str k); [| by rewrite add_trace_nil].
  by destruct (svc_getUrl svc i k).
Qed.

Lemma settle_all_enrich (l : list obj) : ∀ (k : nat) (w : World),
  settle_all (imap (λ i, enrich svc (k + i)) l) w =
    (Normal <$> imap (λ i, enriched svc (k + i)) l,
     add_trace w (l ≫= enrich_calls)).
Proof.
  induction l as [|n l IH]; intros k w; simpl.
  - by rewrite add_trace_nil.
  - rewrite enrich_run.
    rewrite (imap_ext _ (λ i, enrich svc (S k + i))), IH.
    + rewrite add_trace_app. f_equal. simpl. f_equal. f_equal.
      apply imap_ext. intros i x _. simpl. f_equal. lia.
    + intros i x _. simpl. f_equal. lia.
Qed.

Lemma collect_Normal {B} (l : list B) : collect (Normal <$> l) = Normal l.
Proof.
  induction l as [|b l IH]; [done |].
  rewrite fmap_cons. cbn [collect]. by rewrite IH.
Qed.

Lemma Promise_all_enrich l w :
  Promise_all (imap (enrich svc) l) w =
    (Normal (imap (enriched svc) l), add_trace w (l ≫= enrich_calls)).
Proof.
  unfold Promise_all.
  pose proof (settle_all_enrich l 0 w) as H. simpl in H.
  rewrite (imap_ext _ (enrich svc)) in H by done.
  by rewrite H, collect_Normal.
Qed.

Lemma fetchNotes_ok w data errors :
  svc_list svc = Normal (data, errors) →
  fetchNotes svc w =
    (Normal (),
     {| notes := imap (enriched svc) (default [] data);
        loading := false; form := form w;
        trace := trace w ++
          [EvSetLoading true; EvList] ++ logged "List errors:" errors ++
          ((default [] data) ≫= enrich_calls) ++
          [EvSetNotes (imap (enriched svc) (default [] data));
           EvSetLoading false] |}).
Proof.
  intros H. unfold fetchNotes. run. rewrite H.
  destruct errors as [|er ers]; simpl;
    rewrite Promise_all_enrich; unfold add_trace; simpl;
    by rewrite <- !app_assoc.
Qed.

Lemma fetchNotes_throw w e :
  svc_list svc = Throw e →
  fetchNotes svc w =
    (Throw e,
     {| notes := notes w; loading := false; form := form w;
        trace := trace w ++
                 [EvSetLoading true; EvList; EvSetLoading false] |}).
Proof.
  intros H. unfold fetchNotes. run. rewrite H. simpl.
  by rewrite <- !app_assoc.
Qed.

End FetchNotes.

(* --------------------------------------------------------------------- *)
(* createNote, step by step                                              *)
(* --------------------------------------------------------------------- *)

Section CreateNote.

Context (svc : Services).

Lemma createNote_blank w :
  blank (title (form w)) →
  createNote svc w = (Normal (), add_trace w [EvPreventDefault]).
Proof.
  intros Hb. apply truthy_trim_false in Hb.
  unfold createNote. run. by rewrite Hb.
Qed.

Lemma createNote_upload_throw w file e :
  ¬ blank (title (form w)) →
  imageFile (form w) = Some file →
  svc_upload svc (imagePath (svc_now svc) (file_name file)) file = Throw e →
  createNote svc w =
    (Throw e,
     add_trace w
       [EvPreventDefault;
        EvUpload (imagePath (svc_now svc) (file_name file)) file
                 (file_type file)]).
Proof.
  intros Hb Hf Hu. rewrite <- truthy_trim_false in Hb.
  apply not_false_is_true in Hb.
  unfold createNote. run. rewrite Hb, Hf. simpl. rewrite Hu. simpl.
  unfold add_trace. by rewrite <- !app_assoc.
Qed.

(** After a settled upload (or without a file) the outcome is decided by
    the answer of the record store to the create call. *)
Lemma createNote_submit w :
  ¬ blank (title (form w)) →
  upload_ok svc (form w) →
  createNote svc w =
    let pre := EvPreventDefault :: upload_events svc (form w) ++
               [EvCreate (create_input svc (form w))] in
    match svc_create svc (create_input svc (form w)) with
    | Throw e => (Throw e, add_trace w pre)
    | Normal (None, errors) =>
        (Throw TypeError,
         add_trace w (pre ++ logged "Create errors:" errors))
    | Normal (Some c, errors) =>
        (Normal (),
         {| notes := enriched svc 0 c :: notes w;
            loading := loading w;
            form := cleared_form;
            trace := trace w ++ pre ++ logged "Create errors:" errors ++
                     enrich_calls c ++
                     [EvSetNotes (enriched svc 0 c :: notes w);
                      EvSetForm cleared_form; EvFormReset] |})
    end.
Proof.
  intros Hb Hu. rewrite <- truthy_trim_false in Hb.
  apply not_false_is_true in Hb.
  unfold createNote, create_input, upload_path, upload_events, upload_ok,
    form_base in *.
  run. rewrite Hb. cbn [negb].
  destruct (imageFile (form w)) as [file|]; simpl in *;
    [rewrite Hu; simpl |];
    (match goal with
     | |- context [svc_create svc ?i] =>
         destruct (svc_create svc i) as [[[c|] errors]|e]
     end; simpl;
     [ unfold enriched, enrich_calls, resolvable;
       destruct (getImageKey_total c) as [r Hr]; rewrite Hr;
       destruct errors as [|er ers]; simpl;
       (destruct r as [k|]; simpl;
        [destruct (truthy_str k); simpl;
         [destruct (svc_getUrl svc 0 k); simpl |] |]);
       unfold cleared_form; by rewrite <- ?app_assoc
     | destruct errors as [|er ers]; simpl; unfold add_trace; simpl;
       by rewrite <- ?app_assoc
     | unfold add_trace; simpl; by rewrite <- ?app_assoc ]).
Qed.

End CreateNote.

(* --------------------------------------------------------------------- *)
(* Facts about enrichment and about the events of a run                  *)
(* --------------------------------------------------------------------- *)

Section Enriched.

Context (svc : Services).

Lemma resolvable_Some (n : obj) k :
  resolvable n = Some k ↔ getImageKey (Some n) = Normal (Some k) ∧ k ≠ [].
Proof.
  unfold resolvable. destruct (getImageKey_total n) as [r Hr]. rewrite Hr.
  destruct r as [k'|]; [| split; [done | by intros [[=] _]]].
  destruct k' as [|c k']; simpl.
  - split; [done | intros [[= <-] Hne]; by destruct Hne].
  - split; [by intros [= <-] | by intros [[= <-] _]].
Qed.

Lemma getImageKey_holds (n : obj) k :
  getImageKey (Some n) = Normal (Some k) ↔ holds_image_key n k.
Proof.
  unfold getImageKey, readStringProp, get, holds_image_key.
  destruct (n !! "imageKey") as [[| | | |s]|];
    destruct (n !! "image") as [[| | | |s']|]; cbn;
    (split;
     [ intros [= <-]; (by left) || (right; by split)
     | intros [Hl | [Hno Hr]];
       try discriminate Hl; try discriminate Hr;
       try (by destruct (Hno s));
       try (by injection Hl as ->); try (by injection Hr as ->) ]).
Qed.

Lemma resolvable_holds (n : obj) k :
  resolvable n = Some k ↔ holds_image_key n k ∧ k ≠ [].
Proof. by rewrite resolvable_Some, getImageKey_holds. Qed.

Lemma resolvable_None (n : obj) :
  resolvable n = None ↔ ∀ k, holds_image_key n k → k = [].
Proof.
  split.
  - intros Hr k Hk. destruct k as [|c k]; [done |].
    assert (resolvable n = Some (c :: k)) by by apply resolvable_holds.
    congruence.
  - intros H. destruct (resolvable n) as [k|] eqn:Hr; [| done].
    apply resolvable_holds in Hr as [Hk Hne]. by destruct (Hne (H k Hk)).
Qed.

Lemma enriched_other_keys i (n : obj) key :
  key ≠ "imageUrl" → enriched svc i n !! key = n !! key.
Proof.
  intros Hk. unfold enriched, with_imageUrl.
  destruct (resolvable n) as [k|]; [| done].
  destruct (svc_getUrl svc i k); [| done].
  by rewrite lookup_insert_ne.
Qed.

Lemma enriched_imageUrl i (n : obj) :
  n !! "imageUrl" = None →
  enriched svc i n !! "imageUrl" =
    match resolvable n with
    | Some k =>
        match svc_getUrl svc i k with
        | Normal url => Some (VStr url)
        | Throw _ => None
        end
    | None => None
    end.
Proof.
  intros Hn. unfold enriched, with_imageUrl.
  destruct (resolvable n) as [k|]; [| done].
  destruct (svc_getUrl svc i k); [| done].
  by rewrite lookup_insert_eq.
Qed.

Lemma enriched_id i (n : obj) : get (enriched svc i n) "id" = get n "id".
Proof. unfold get. by rewrite enriched_other_keys. Qed.

Lemma enrich_calls_getUrl (l : list obj) e :
  e ∈ l ≫= enrich_calls → ∃ k, e = EvGetUrl k.
Proof.
  rewrite list_elem_of_bind. intros (n & He & _).
  unfold enrich_calls in He. destruct (resolvable n) as [k|].
  - apply list_elem_of_singleton in He. eauto.
  - by apply elem_of_nil in He.
Qed.

Lemma enrich_calls_one_getUrl (n : obj) e :
  e ∈ enrich_calls n → ∃ k, e = EvGetUrl k.
Proof.
  intros He. apply (enrich_calls_getUrl [n]). simpl.
  by rewrite app_nil_r.
Qed.

Lemma logged_console label errors e :
  e ∈ logged label errors → e = EvConsoleError label errors.
Proof.
  destruct errors; simpl.
  - by intros ?%elem_of_nil.
  - by intros ?%list_elem_of_singleton.
Qed.

End Enriched.

(* --------------------------------------------------------------------- *)
(* The model at work on the samples                                      *)
(* --------------------------------------------------------------------- *)

Example trim_sample : trim (js " My Title ") = js "My Title".
Proof. reflexivity. Qed.

Example trim_unicode_sample :
  trim ([65279; 9; 8232] ++ js "a b" ++ [160; 12288; 10])%N = js "a b".
Proof. reflexivity. Qed.

Example imagePath_sample :
  imagePath 1700000000000 (js "cat.png")
  = js "public/notes/1700000000000_cat.png".
Proof. reflexivity. Qed.

Example media_path_allowed_sample :
  Storage.allowed Storage.storage (js "eu-1:abc") Storage.ActWrite
    (js "media/eu-1:abc/cat.png") = true ∧
  Storage.allowed Storage.storage (js "eu-1:abc") Storage.ActWrite
    (js "media/eu-1:xyz/cat.png") = false.
Proof. split; reflexivity. Qed.

(** Three records, the URL of the third cannot be resolved: three
    DisplayNotes in the same order, the first with its URL, the second
    without an image, the third as the store returned it. *)
Example fetchNotes_sample :
  fetchNotes Sample.services (Sample.world Sample.titled) =
    (Normal (),
     {| notes :=
          [ with_imageUrl Sample.note1
              (js "https://blobs.example/public/notes/1_a.png");
            Sample.note2; Sample.note3 ];
        loading := false;
        form := Sample.titled;
        trace :=
          [ EvSetLoading true; EvList;
            EvGetUrl (js "public/notes/1_a.png");
            EvGetUrl (js "public/notes/3_c.png");
            EvSetNotes
              [ with_imageUrl Sample.note1
                  (js "https://blobs.example/public/notes/1_a.png");
                Sample.note2; Sample.note3 ];
            EvSetLoading false ] |}).
Proof. vm_compute. reflexivity. Qed.

Example createNote_sample :
  notes (createNote Sample.services (Sample.world Sample.with_photo)).2 =
    [ <["imageUrl" :=
          VStr (js "https://blobs.example/public/notes/1700000000000_cat.png")]>
        (<["id" := VStr (js "n9")]>
           (<["image" := VStr (js "public/notes/1700000000000_cat.png")]>
              (<["imageKey" := VStr (js "public/notes/1700000000000_cat.png")]>
                 (<["content" := VUndefined]>
                    (<["title" := VStr (js "Cat")]> ∅)))));
      Sample.note2 ].
Proof. vm_compute. reflexivity. Qed.

Example deleteNote_sample :
  notes (deleteNote Sample.services (js "n2")
           {| notes := [Sample.note1; Sample.note2; Sample.note3];
              loading := false; form := Sample.titled; trace := [] |}).2
  = [Sample.note1; Sample.note3].
Proof. vm_compute. reflexivity. Qed.

(* --------------------------------------------------------------------- *)
(* fetchNotes: one DisplayNote per record, best-effort image URLs        *)
(* --------------------------------------------------------------------- *)

(** C1. When the record store answers the list request, fetchNotes
    returns normally and the in-memory list becomes one DisplayNote per
    record, at the position of its record. The DisplayNote agrees with the
    record on every property other than imageUrl. If the record carries a
    non-empty image key (the string under imageKey, or under image when
    imageKey holds no string) and the resolution call for that key
    succeeds, the DisplayNote is the record with the resolved URL under
    imageUrl; if the call fails, or the record carries no non-empty key,
    it is the record as the store returned it. So for a record without an
    imageUrl of its own (it is never persisted) the DisplayNote has an
    imageUrl exactly when the record carries a non-empty image key whose
    resolution succeeded. The entry of a record does not depend on how
    the resolution calls of the other records settle. *)
Theorem fetchNotes_display_notes
    (svc : Services) (w : World) (data : option (list obj))
    (errors : list jsstr) :
  svc_list svc = Normal (data, errors) →
  (fetchNotes svc w).1 = Normal () ∧
  length (notes (fetchNotes svc w).2) = length (default [] data) ∧
  (∀ i (n : obj), default [] data !! i = Some n →
     ∃ d : obj, notes (fetchNotes svc w).2 !! i = Some d ∧
       (∀ key, key ≠ "imageUrl" → d !! key = n !! key) ∧
       (∀ k url, holds_image_key n k → k ≠ [] →
                 svc_getUrl svc i k = Normal url →
                 d = <["imageUrl" := VStr url]> n) ∧
       (∀ k e, holds_image_key n k →
               svc_getUrl svc i k = Throw e → d = n) ∧
       ((∀ k, holds_image_key n k → k = []) → d = n) ∧
       (n !! "imageUrl" = None →
        (is_Some (d !! "imageUrl") ↔
           ∃ k url, holds_image_key n k ∧ k ≠ [] ∧
                    svc_getUrl svc i k = Normal url))) ∧
  (∀ (svc' : Services) (j : nat),
     svc_list svc' = svc_list svc →
     (∀ i k, i ≠ j → svc_getUrl svc' i k = svc_getUrl svc i k) →
     ∀ i, i ≠ j →
       notes (fetchNotes svc' w).2 !! i = notes (fetchNotes svc w).2 !! i).
Proof.
  intros Hlist. rewrite (fetchNotes_ok svc w data errors Hlist).
  cbn [fst snd notes].
  split; [done |]. split; [apply length_imap |]. split.
  - intros i n Hi. exists (enriched svc i n).
    rewrite list_lookup_imap, Hi. split; [done |].
    split; [intros key Hkey; by apply enriched_other_keys |].
    split; [| split; [| split]].
    + intros k url Hk Hne Hu.
      assert (Hr : resolvable n = Some k) by by apply resolvable_holds.
      unfold enriched. by rewrite Hr, Hu.
    + intros k e Hk Hu. unfold enriched.
      destruct (resolvable n) as [k'|] eqn:Hr; [| done].
      apply resolvable_Some in Hr as [Hr _].
      apply getImageKey_holds in Hk.
      rewrite Hk in Hr. injection Hr as ->. by rewrite Hu.
    + intros Hno. apply resolvable_None in Hno.
      unfold enriched. by rewrite Hno.
    + intros Hnone. rewrite (enriched_imageUrl svc i n Hnone). split.
      * destruct (resolvable n) as [k|] eqn:Hk; [| by intros [? ?]].
        apply resolvable_holds in Hk as [Hk Hne].
        destruct (svc_getUrl svc i k) as [url|e] eqn:Hu; [| by intros [? ?]].
        intros _. eauto.
      * intros (k & url & Hk & Hne & Hu).
        assert (Hr : resolvable n = Some k) by by apply resolvable_holds.
        rewrite Hr, Hu. eauto.
  - intros svc' j Hlist' Hurl i Hij.
    rewrite Hlist in Hlist'.
    rewrite (fetchNotes_ok svc' w data errors Hlist'). cbn [snd notes].
    rewrite !list_lookup_imap.
    destruct (default [] data !! i) as [n|]; [| done]. simpl. f_equal.
    unfold enriched. destruct (resolvable n) as [k|]; [| done].
    by rewrite Hurl.
Qed.

Lemma fetchNotes_display_notes_witness :
  svc_list Sample.services =
    Normal (Some [Sample.note1; Sample.note2; Sample.note3], []) ∧
  notes (fetchNotes Sample.services (Sample.world Sample.titled)).2 !! 0%nat
  = Some (<["imageUrl" :=
              VStr (js "https://blobs.example/public/notes/1_a.png")]>
            Sample.note1) ∧
  notes (fetchNotes Sample.services (Sample.world Sample.titled)).2 !! 2%nat
  = Some Sample.note3.
Proof.
  split; [reflexivity |].
  pose proof (proj1 (proj2 (proj2 (fetchNotes_display_notes Sample.services
                (Sample.world Sample.titled)
                (Some [Sample.note1; Sample.note2; Sample.note3]) []
                eq_refl)))) as Hall.
  split.
  - destruct (Hall 0%nat Sample.note1 eq_refl) as (d & Hd & _ & Hres & _).
    rewrite Hd. f_equal.
    apply (Hres (js "public/notes/1_a.png")
                (js "https://blobs.example/public/notes/1_a.png"));
      [left; reflexivity | discriminate | reflexivity].
  - destruct (Hall 2%nat Sample.note3 eq_refl) as (d & Hd & _ & _ & Hfail & _).
    rewrite Hd. f_equal.
    apply (Hfail (js "public/notes/3_c.png") (Rejected (js "NotFound")));
      [| reflexivity].
    right. split; [intros s; discriminate | reflexivity].
Defined.

(** C7. fetchNotes sets the loading indicator before it issues the list
    request and clears it as its last step; nothing in between touches
    the indicator, and it is false afterwards whether the run returns or
    throws. A list request that throws makes fetchNotes throw the same
    exception and leaves the in-memory list alone. *)
Theorem fetchNotes_loading_bracket (svc : Services) (w : World) :
  loading (fetchNotes svc w).2 = false ∧
  (∃ mid,
     trace (fetchNotes svc w).2 =
       trace w ++ [EvSetLoading true; EvList] ++ mid ++ [EvSetLoading false]
     ∧ (∀ b, EvSetLoading b ∉ mid) ∧ EvList ∉ mid) ∧
  match svc_list svc with
  | Throw e =>
      (fetchNotes svc w).1 = Throw e ∧ notes (fetchNotes svc w).2 = notes w
  | Normal _ => (fetchNotes svc w).1 = Normal ()
  end.
Proof.
  destruct (svc_list svc) as [[data errors]|e] eqn:Hlist.
  - rewrite (fetchNotes_ok svc w data errors Hlist). cbn [fst snd loading trace].
    split; [done |]. split; [| done].
    eexists (logged "List errors:" errors ++
             (default [] data ≫= enrich_calls) ++ [EvSetNotes _]).
    split; [by rewrite <- !app_assoc |].
    split; [intros b |];
      rewrite !elem_of_app, list_elem_of_singleton;
      intros [H | [H | H]];
      [ by apply logged_console in H
      | by apply enrich_calls_getUrl in H as [k ?]
      | done
      | by apply logged_console in H
      | by apply enrich_calls_getUrl in H as [k ?]
      | done ].
  - rewrite (fetchNotes_throw svc w e Hlist). cbn [fst snd loading trace notes].
    split; [done |]. split; [| done].
    exists []. split; [done |].
    split; [intros b |]; apply not_elem_of_nil.
Qed.

(* --------------------------------------------------------------------- *)
(* createNote: validation, upload, create                                *)
(* --------------------------------------------------------------------- *)

Section CreateTrace.

Context (svc : Services).

Lemma createNote_trace w :
  ¬ blank (title (form w)) →
  upload_ok svc (form w) →
  trace (createNote svc w).2 =
    trace w ++ EvPreventDefault :: upload_events svc (form w) ++
    EvCreate (create_input svc (form w)) :: after_create svc w.
Proof.
  intros Hb Hu. rewrite (createNote_submit svc w Hb Hu). unfold after_create.
  destruct (svc_create svc (create_input svc (form w)))
    as [[[c|] errors]|e]; cbn [snd trace add_trace];
    rewrite <- ?app_assoc; simpl; by rewrite <- ?app_assoc.
Qed.

(** After the create call there is no further call to the record store's
    create and no upload: only logging, URL resolution and state updates. *)
Lemma after_create_events w e :
  e ∈ after_create svc w →
  (∃ errors, e = EvConsoleError "Create errors:" errors) ∨
  (∃ k, e = EvGetUrl k) ∨ (∃ ns, e = EvSetNotes ns) ∨
  (∃ f, e = EvSetForm f) ∨ e = EvFormReset.
Proof.
  unfold after_create.
  destruct (svc_create svc (create_input svc (form w)))
    as [[[c|] errors]|e'].
  - rewrite !elem_of_app, !elem_of_cons, elem_of_nil.
    intros [H | [H | [H | [H | [H | []]]]]]; eauto 10.
    + apply logged_console in H. eauto.
    + apply enrich_calls_one_getUrl in H. eauto.
  - intros H. apply logged_console in H. eauto.
  - by intros ?%elem_of_nil.
Qed.

Lemma after_create_no_create w input : EvCreate input ∉ after_create svc w.
Proof.
  intros H. apply after_create_events in H.
  destruct H as [[? ?] | [[? ?] | [[? ?] | [[? ?] | ?]]]]; done.
Qed.

Lemma after_create_no_upload w p f t : EvUpload p f t ∉ after_create svc w.
Proof.
  intros H. apply after_create_events in H.
  destruct H as [[? ?] | [[? ?] | [[? ?] | [[? ?] | ?]]]]; done.
Qed.

(** With a file, the upload comes right after preventDefault and is the
    only upload of the run. *)
Lemma createNote_single_upload w file :
  ¬ blank (title (form w)) →
  imageFile (form w) = Some file →
  ∃ rest,
    trace (createNote svc w).2 =
      trace w ++
      [EvPreventDefault;
       EvUpload (imagePath (svc_now svc) (file_name file)) file
                (file_type file)] ++ rest ∧
    ∀ p f t, EvUpload p f t ∉ rest.
Proof.
  intros Hb Hf.
  destruct (svc_upload svc (imagePath (svc_now svc) (file_name file)) file)
    as [[]|e] eqn:Hu.
  - assert (Hok : upload_ok svc (form w)).
    { unfold upload_ok. by rewrite Hf. }
    exists (EvCreate (create_input svc (form w)) :: after_create svc w). split.
    + rewrite (createNote_trace w Hb Hok). unfold upload_events.
      by rewrite Hf.
    + intros p f t [H | H]%elem_of_cons; [done |].
      by apply after_create_no_upload in H.
  - exists []. rewrite (createNote_upload_throw svc w file e Hb Hf Hu).
    split; [done |]. intros p f t. apply not_elem_of_nil.
Qed.

End CreateTrace.

(** C3. With a title that is empty or made of whitespace only, createNote
    returns normally right after preventDefault: the trace gains no call
    to the record store or the blob store and no state update, and the
    in-memory list and the form are what they were. *)
Theorem createNote_blank_title_noop (svc : Services) (w : World) :
  blank (title (form w)) →
  (createNote svc w).1 = Normal () ∧
  notes (createNote svc w).2 = notes w ∧
  form (createNote svc w).2 = form w ∧
  trace (createNote svc w).2 = trace w ++ [EvPreventDefault].
Proof.
  intros Hb. by rewrite (createNote_blank svc w Hb).
Qed.

Lemma createNote_blank_title_noop_witness :
  blank (title (form (Sample.world Sample.spaces))) ∧
  trace (createNote Sample.services (Sample.world Sample.spaces)).2
  = [EvPreventDefault].
Proof.
  split; [repeat constructor |].
  exact (proj2 (proj2 (proj2 (createNote_blank_title_noop Sample.services
           (Sample.world Sample.spaces) ltac:(repeat constructor))))).
Defined.

(** C4. With a non-blank title and an image file, the upload is the first
    call createNote makes. If it throws, createNote throws the same
    exception, the trace ends with the upload (no create call) and the
    in-memory list is unchanged. If it returns, the create call is the
    next event, and nothing after it is an upload or a create. *)
Theorem createNote_upload_before_create
    (svc : Services) (w : World) (file : File) :
  ¬ blank (title (form w)) →
  imageFile (form w) = Some file →
  match svc_upload svc (imagePath (svc_now svc) (file_name file)) file with
  | Throw e =>
      (createNote svc w).1 = Throw e ∧
      notes (createNote svc w).2 = notes w ∧
      trace (createNote svc w).2 =
        trace w ++
        [EvPreventDefault;
         EvUpload (imagePath (svc_now svc) (file_name file)) file
                  (file_type file)]
  | Normal _ =>
      ∃ input rest,
        trace (createNote svc w).2 =
          trace w ++
          [EvPreventDefault;
           EvUpload (imagePath (svc_now svc) (file_name file)) file
                    (file_type file);
           EvCreate input] ++ rest ∧
        (∀ i, EvCreate i ∉ rest) ∧
        (∀ p f t, EvUpload p f t ∉ rest)
  end.
Proof.
  intros Hb Hf.
  destruct (svc_upload svc (imagePath (svc_now svc) (file_name file)) file)
    as [[]|e] eqn:Hu.
  - assert (Hok : upload_ok svc (form w)).
    { unfold upload_ok. by rewrite Hf. }
    exists (create_input svc (form w)), (after_create svc w).
    split; [| split].
    + rewrite (createNote_trace svc w Hb Hok). unfold upload_events.
      by rewrite Hf.
    + intros i. apply after_create_no_create.
    + intros p f t. apply after_create_no_upload.
  - by rewrite (createNote_upload_throw svc w file e Hb Hf Hu).
Qed.

Lemma createNote_upload_before_create_witness :
  ¬ blank (title (form (Sample.world Sample.with_photo))) ∧
  imageFile (form (Sample.world Sample.with_photo)) = Some Sample.photo ∧
  (createNote Sample.no_upload (Sample.world Sample.with_photo)).1
  = Throw (Rejected (js "AccessDenied")).
Proof.
  assert (Hb : ¬ blank (title (form (Sample.world Sample.with_photo)))).
  { intros H. inversion H as [|? ? Hc _]. discriminate Hc. }
  split; [exact Hb |]. split; [reflexivity |].
  exact (proj1 (createNote_upload_before_create Sample.no_upload
           (Sample.world Sample.with_photo) Sample.photo Hb eq_refl)).
Defined.

(* --------------------------------------------------------------------- *)
(* deleteNote                                                            *)
(* --------------------------------------------------------------------- *)

(** C5. deleteNote first asks the record store to delete. When that call
    returns, the in-memory list becomes the previous list without the
    elements whose id is the argument: membership is kept for exactly the
    other elements, and the result is a sublist of the previous list, so
    their relative order is kept. When the call throws, deleteNote throws
    the same exception, makes no state update and leaves the list as it
    was. *)
Theorem deleteNote_filters_by_id (svc : Services) (w : World) (id : jsstr) :
  (∃ rest, trace (deleteNote svc id w).2 = trace w ++ EvDelete id :: rest) ∧
  match svc_delete svc id with
  | Normal _ =>
      (deleteNote svc id w).1 = Normal () ∧
      notes (deleteNote svc id w).2
        = filter (λ n, get n "id" ≠ VStr id) (notes w) ∧
      (∀ n, n ∈ notes (deleteNote svc id w).2 ↔
            n ∈ notes w ∧ get n "id" ≠ VStr id) ∧
      notes (deleteNote svc id w).2 `sublist_of` notes w
  | Throw e =>
      (deleteNote svc id w).1 = Throw e ∧
      notes (deleteNote svc id w).2 = notes w ∧
      trace (deleteNote svc id w).2 = trace w ++ [EvDelete id]
  end.
Proof.
  destruct (svc_delete svc id) as [[]|e] eqn:Hd.
  - rewrite (deleteNote_ok svc w id Hd). cbn [fst snd notes trace].
    split; [eauto |]. split; [done |]. split; [done |].
    split; [| apply sublist_filter].
    intros n. rewrite list_elem_of_filter. tauto.
  - rewrite (deleteNote_throw svc w id e Hd). cbn [fst snd notes trace].
    split; [eauto | done].
Qed.

(* --------------------------------------------------------------------- *)
(* The upload key and the storage access table                           *)
(* --------------------------------------------------------------------- *)

Section Access.

Import Storage.

(** A pattern that begins with a literal code unit matches no path that
    begins with another one. *)
Lemma glob_match_head_mismatch c g c' s :
  c ≠ c' → glob_match (GChar c :: g) (c' :: s) = false.
Proof.
  intros Hc. simpl. by apply N.eqb_neq in Hc as ->.
Qed.

Lemma media_rule_misses_public_notes entity_id rest :
  glob_match (expand entity_id [Lit "media/"; EntityId; Lit "/"; Star])
             (js "public/notes/" ++ rest) = false.
Proof. by apply glob_match_head_mismatch. Qed.

Lemma storage_denies_public_notes entity_id a rest :
  allowed storage entity_id a (js "public/notes/" ++ rest) = false.
Proof.
  unfold allowed, storage, rule_allows. cbn [storage_access existsb rule_path].
  by rewrite media_rule_misses_public_notes.
Qed.

End Access.

(** C6. With a non-blank title and an image file, createNote uploads
    exactly once, under the key "public/notes/" followed by the decimal
    time in milliseconds, "_" and the name of the file. The access table
    has the single pattern "media/{entity_id}/*" with read, write and
    delete for the owning identity, and for no identity and no action does
    it allow that key. *)
Theorem upload_key_outside_granted_paths
    (svc : Services) (w : World) (file : File) :
  ¬ blank (title (form w)) →
  imageFile (form w) = Some file →
  (∃ rest,
     trace (createNote svc w).2 =
       trace w ++
       [EvPreventDefault;
        EvUpload (js "public/notes/" ++ number_toString (svc_now svc) ++
                  js "_" ++ file_name file) file (file_type file)] ++ rest ∧
     ∀ p f t, EvUpload p f t ∉ rest) ∧
  (λ r, (Storage.render (Storage.rule_path r), Storage.rule_grants r))
    <$> Storage.storage_access Storage.storage
  = [("media/{entity_id}/*",
      [(Storage.EntityIdentity,
        [Storage.ActRead; Storage.ActWrite; Storage.ActDelete])])] ∧
  ∀ entity_id a,
    Storage.allowed Storage.storage entity_id a
      (js "public/notes/" ++ number_toString (svc_now svc) ++
       js "_" ++ file_name file) = false.
Proof.
  intros Hb Hf. split; [| split; [reflexivity |]].
  - exact (createNote_single_upload svc w file Hb Hf).
  - intros entity_id a. apply storage_denies_public_notes.
Qed.

Lemma upload_key_outside_granted_paths_witness :
  ¬ blank (title (form (Sample.world Sample.with_photo))) ∧
  imageFile (form (Sample.world Sample.with_photo)) = Some Sample.photo ∧
  ∀ entity_id a,
    Storage.allowed Storage.storage entity_id a
      (js "public/notes/1700000000000_cat.png") = false.
Proof.
  assert (Hb : ¬ blank (title (form (Sample.world Sample.with_photo)))).
  { intros H. inversion H as [|? ? Hc _]. discriminate Hc. }
  split; [exact Hb |]. split; [reflexivity |].
  exact (proj2 (proj2 (upload_key_outside_granted_paths Sample.services
           (Sample.world Sample.with_photo) Sample.photo Hb eq_refl))).
Defined.

(* --------------------------------------------------------------------- *)
(* What createNote sends to the record store                             *)
(* --------------------------------------------------------------------- *)

Section Payload.

Lemma buildCreateInput_title base k :
  buildCreateInput base k !! "title" = Some (VStr (base_title base)).
Proof.
  unfold buildCreateInput, spread_base.
  destruct k as [[|c k]|]; simpl; by simplify_map_eq.
Qed.

Lemma buildCreateInput_content base k :
  buildCreateInput base k !! "content" = Some (of_opt (base_content base)).
Proof.
  unfold buildCreateInput, spread_base.
  destruct k as [[|c k]|]; simpl; by simplify_map_eq.
Qed.

Lemma buildCreateInput_keyed (base : Base) (k : jsstr) :
  k ≠ [] →
  buildCreateInput base (Some k) !! "imageKey" = Some (VStr k) ∧
  buildCreateInput base (Some k) !! "image" = Some (VStr k).
Proof.
  intros Hk. unfold buildCreateInput, spread_base.
  destruct k as [|c k]; [done |]. simpl. by simplify_map_eq.
Qed.

Lemma buildCreateInput_unkeyed base :
  buildCreateInput base None !! "imageKey" = None ∧
  buildCreateInput base None !! "image" = None.
Proof. unfold buildCreateInput, spread_base. simpl. by simplify_map_eq. Qed.

Lemma imagePath_nonempty now name : imagePath now name ≠ [].
Proof. done. Qed.

(** [trim(c) || undefined], stored as the content of the payload. *)
Lemma of_opt_trimmed (c : option jsstr) :
  of_opt (or_undefined (trim <$> c)) =
    match c with
    | Some c0 => match trim c0 with [] => VUndefined | t => VStr t end
    | None => VUndefined
    end.
Proof.
  destruct c as [c0|]; [| done]. unfold or_undefined. simpl.
  by destruct (trim c0).
Qed.

End Payload.

(** C8. With a non-blank title (and an upload that settles, when there is
    a file) createNote calls create exactly once, and the payload carries
    the trimmed title and the trimmed content: what is sent is the input
    without a whitespace-only prefix and suffix, and it neither starts nor
    ends with whitespace. A content that trims to the empty string, like a
    missing content, is sent as undefined. In particular the title
    " My Title " with the content " body " is sent as "My Title" and
    "body". *)
Theorem createNote_trims_title_and_content (svc : Services) (w : World) :
  ¬ blank (title (form w)) →
  upload_ok svc (form w) →
  (∃ input pre rest t l r,
     trace (createNote svc w).2 = trace w ++ pre ++ EvCreate input :: rest ∧
     (∀ i, EvCreate i ∉ pre) ∧ (∀ i, EvCreate i ∉ rest) ∧
     input !! "title" = Some (VStr t) ∧
     title (form w) = l ++ t ++ r ∧ blank l ∧ blank r ∧
     (∀ c, head t = Some c → is_ws c = false) ∧
     (∀ c, last t = Some c → is_ws c = false) ∧
     match content (form w) with
     | None => input !! "content" = Some VUndefined
     | Some c0 =>
         ∃ t' l' r',
           c0 = l' ++ t' ++ r' ∧ blank l' ∧ blank r' ∧
           (∀ c, head t' = Some c → is_ws c = false) ∧
           (∀ c, last t' = Some c → is_ws c = false) ∧
           input !! "content" =
             Some (match t' with [] => VUndefined | _ => VStr t' end)
     end) ∧
  (title (form w) = js " My Title " →
   content (form w) = Some (js " body ") →
   imageFile (form w) = None →
   ∃ rest,
     trace (createNote svc w).2 =
       trace w ++
       [EvPreventDefault;
        EvCreate (<["content" := VStr (js "body")]>
                    (<["title" := VStr (js "My Title")]> ∅))] ++ rest).
Proof.
  intros Hb Hu. split.
  - exists (create_input svc (form w)),
           (EvPreventDefault :: upload_events svc (form w)),
           (after_create svc w), (trim (title (form w))).
    destruct (trim_decomp (title (form w))) as (l & r & Ht & Hl & Hr & Hh & Hla).
    exists l, r.
    split; [by rewrite (createNote_trace svc w Hb Hu) |].
    split.
    { intros i [H | H]%elem_of_cons; [done |].
      unfold upload_events in H. destruct (imageFile (form w)).
      - by apply list_elem_of_singleton in H.
      - by apply elem_of_nil in H. }
    split; [intros i; apply after_create_no_create |].
    split; [apply buildCreateInput_title |].
    do 5 (split; [done |]).
    unfold create_input. rewrite buildCreateInput_content. cbn [form_base base_content].
    rewrite of_opt_trimmed.
    destruct (content (form w)) as [c0|]; [| done].
    destruct (trim_decomp c0) as (l' & r' & Ht' & Hl' & Hr' & Hh' & Hla').
    exists (trim c0), l', r'. by destruct (trim c0).
  - intros Ht Hc Hf. exists (after_create svc w).
    rewrite (createNote_trace svc w Hb Hu).
    unfold upload_events, create_input, upload_path, form_base.
    by rewrite Ht, Hc, Hf.
Qed.

Lemma createNote_trims_title_and_content_witness :
  ¬ blank (title (form (Sample.world Sample.titled))) ∧
  upload_ok Sample.services (form (Sample.world Sample.titled)) ∧
  ∃ rest,
    trace (createNote Sample.services (Sample.world Sample.titled)).2 =
      [EvPreventDefault;
       EvCreate (<["content" := VStr (js "body")]>
                   (<["title" := VStr (js "My Title")]> ∅))] ++ rest.
Proof.
  assert (Hb : ¬ blank (title (form (Sample.world Sample.titled)))).
  { intros H. inversion H as [|? ? _ H1]. inversion H1 as [|? ? Hc _].
    discriminate Hc. }
  split; [exact Hb |]. split; [exact I |].
  exact (proj2 (createNote_trims_title_and_content Sample.services
           (Sample.world Sample.titled) Hb I) eq_refl eq_refl eq_refl).
Defined.

(* --------------------------------------------------------------------- *)
(* The two names of the image key                                        *)
(* --------------------------------------------------------------------- *)

Section ImageKey.

Lemma getImageKey_imageKey (n : obj) s :
  n !! "imageKey" = Some (VStr s) → getImageKey (Some n) = Normal (Some s).
Proof.
  intros H. unfold getImageKey, readStringProp, get. by rewrite H.
Qed.

Lemma getImageKey_fallback (n : obj) :
  (∀ s, n !! "imageKey" ≠ Some (VStr s)) →
  getImageKey (Some n) =
    Normal (match n !! "image" with Some (VStr s) => Some s | _ => None end).
Proof.
  intros H. unfold getImageKey, readStringProp, get.
  destruct (n !! "imageKey") as [[| | | |s]|] eqn:Hk; cbn;
    try (by destruct (n !! "image") as [[]|]).
  by destruct (H s).
Qed.

End ImageKey.

(** C10. For a non-empty key, the payload of buildCreateInput has the key
    under imageKey and under image; without a key it has neither. The
    detection reads imageKey: a string there is the answer whatever image
    holds; when imageKey is not a string, the answer is image if that is a
    string and undefined otherwise. So the key is detected on the payload,
    also when only one of the two properties survives. In createNote the
    payload of the create call carries the upload key under both names
    when there is a file, and neither name when there is none. *)
Theorem image_key_two_field_names (base : Base) (k : jsstr) :
  k ≠ [] →
  (buildCreateInput base (Some k) !! "imageKey" = Some (VStr k) ∧
   buildCreateInput base (Some k) !! "image" = Some (VStr k)) ∧
  (buildCreateInput base None !! "imageKey" = None ∧
   buildCreateInput base None !! "image" = None) ∧
  (∀ (n : obj) s,
     n !! "imageKey" = Some (VStr s) →
     getImageKey (Some n) = Normal (Some s)) ∧
  (∀ n : obj,
     (∀ s, n !! "imageKey" ≠ Some (VStr s)) →
     getImageKey (Some n) =
       Normal (match n !! "image" with
               | Some (VStr s) => Some s
               | _ => None
               end)) ∧
  (getImageKey (Some (buildCreateInput base (Some k))) = Normal (Some k) ∧
   getImageKey (Some (delete "image" (buildCreateInput base (Some k))))
     = Normal (Some k) ∧
   getImageKey (Some (delete "imageKey" (buildCreateInput base (Some k))))
     = Normal (Some k) ∧
   getImageKey (Some (buildCreateInput base None)) = Normal None) ∧
  (∀ (svc : Services) (w : World),
     ¬ blank (title (form w)) →
     upload_ok svc (form w) →
     ∃ input rest,
       trace (createNote svc w).2 =
         trace w ++ EvPreventDefault :: upload_events svc (form w) ++
         EvCreate input :: rest ∧
       match imageFile (form w) with
       | Some file =>
           input !! "imageKey"
             = Some (VStr (imagePath (svc_now svc) (file_name file))) ∧
           input !! "image"
             = Some (VStr (imagePath (svc_now svc) (file_name file)))
       | None => input !! "imageKey" = None ∧ input !! "image" = None
       end).
Proof.
  intros Hk.
  destruct (buildCreateInput_keyed base k Hk) as [Hik Him].
  destruct (buildCreateInput_unkeyed base) as [Hnk Hnm].
  split; [done |]. split; [done |].
  split; [apply getImageKey_imageKey |].
  split; [apply getImageKey_fallback |].
  split.
  - split; [by apply getImageKey_imageKey |].
    split; [apply getImageKey_imageKey; by rewrite lookup_delete_ne |].
    split.
    + rewrite getImageKey_fallback.
      * rewrite lookup_delete_ne by done. by rewrite Him.
      * intros s. by rewrite lookup_delete_eq.
    + rewrite getImageKey_fallback; [by rewrite Hnm |].
      intros s. by rewrite Hnk.
  - intros svc w Hb Hu.
    exists (create_input svc (form w)), (after_create svc w).
    split; [apply (createNote_trace svc w Hb Hu) |].
    unfold create_input, upload_path.
    destruct (imageFile (form w)) as [file|].
    + exact (buildCreateInput_keyed _ _ (imagePath_nonempty _ _)).
    + exact (buildCreateInput_unkeyed _).
Qed.

Lemma image_key_two_field_names_witness :
  js "public/notes/1_a.png" ≠ [] ∧
  getImageKey
    (Some (delete "imageKey"
             (buildCreateInput
                {| base_title := js "first"; base_content := None |}
                (Some (js "public/notes/1_a.png")))))
  = Normal (Some (js "public/notes/1_a.png")).
Proof.
  assert (Hk : js "public/notes/1_a.png" ≠ []) by (simpl; discriminate).
  split; [exact Hk |].
  exact (proj1 (proj2 (proj2 (proj1 (proj2 (proj2 (proj2 (proj2
           (image_key_two_field_names
              {| base_title := js "first"; base_content := None |}
              (js "public/notes/1_a.png") Hk))))))))).
Defined.

(* --------------------------------------------------------------------- *)
(* Unique ids                                                            *)
(* --------------------------------------------------------------------- *)

Section UniqueIds.

Context (svc : Services).

Lemma ids_enriched (l : list obj) : ids (imap (enriched svc) l) = ids l.
Proof.
  unfold ids. rewrite fmap_imap, <- (imap_const (λ n, get n "id")).
  apply imap_ext. intros i n _. apply enriched_id.
Qed.

Lemma unique_ids_filter (P : obj → Prop) `{!∀ n, Decision (P n)} ns :
  unique_ids ns → unique_ids (filter P ns).
Proof.
  unfold unique_ids, ids. intros Hnd.
  apply (sublist_NoDup _ _ Hnd). apply fmap_sublist, sublist_filter.
Qed.

Lemma fetchNotes_unique_ids w :
  unique_ids (notes w) →
  (∀ data errors, svc_list svc = Normal (data, errors) →
                  unique_ids (default [] data)) →
  unique_ids (notes (fetchNotes svc w).2).
Proof.
  intros Hw Hstore. destruct (svc_list svc) as [[data errors]|e] eqn:Hlist.
  - rewrite (fetchNotes_ok svc w data errors Hlist). cbn [snd notes].
    unfold unique_ids. rewrite ids_enriched. by eapply Hstore.
  - by rewrite (fetchNotes_throw svc w e Hlist).
Qed.

Lemma createNote_unique_ids w :
  unique_ids (notes w) →
  (∀ input (c : obj) errors,
     svc_create svc input = Normal (Some c, errors) →
     get c "id" ∉ ids (notes w)) →
  unique_ids (notes (createNote svc w).2).
Proof.
  intros Hw Hfresh.
  destruct (decide (blank (title (form w)))) as [Hb|Hb].
  { by rewrite (createNote_blank svc w Hb). }
  assert (Hcases : upload_ok svc (form w) ∨
                   ∃ file e, imageFile (form w) = Some file ∧
                     svc_upload svc (imagePath (svc_now svc) (file_name file))
                       file = Throw e).
  { unfold upload_ok. destruct (imageFile (form w)) as [file|]; [| by left].
    destruct (svc_upload svc _ file) as [[]|e] eqn:Hu; [by left |].
    right. eauto. }
  destruct Hcases as [Hu | (file & e & Hf & Hu)].
  - rewrite (createNote_submit svc w Hb Hu). cbv zeta.
    destruct (svc_create svc (create_input svc (form w)))
      as [[[c|] errors]|e] eqn:Hc; [| done | done].
    cbn [snd notes]. unfold unique_ids, ids. rewrite fmap_cons.
    apply NoDup_cons. split; [| done].
    rewrite enriched_id. by eapply Hfresh.
  - by rewrite (createNote_upload_throw svc w file e Hb Hf Hu).
Qed.

Lemma deleteNote_unique_ids w id :
  unique_ids (notes w) → unique_ids (notes (deleteNote svc id w).2).
Proof.
  intros Hw. destruct (svc_delete svc id) as [[]|e] eqn:Hd.
  - rewrite (deleteNote_ok svc w id Hd). cbn [snd notes].
    by apply unique_ids_filter.
  - by rewrite (deleteNote_throw svc w id e Hd).
Qed.

End UniqueIds.

Section Overlap.

Context (svc : Services).

(** createNote is its requests followed by its synchronous end. *)
Lemma createNote_split w :
  createNote svc w = (r ← createNote_requests svc; createNote_resume r) w.
Proof.
  unfold createNote, createNote_requests, createNote_resume,
    createNote_commit.
  run.
  destruct (negb (truthy_str (trim (title (form w))))); [done |].
  destruct (imageFile (form w)) as [file|]; simpl;
    [destruct (svc_upload svc _ file) as [[]|e]; simpl; [| done] |];
    (match goal with
     | |- context [svc_create svc ?i] =>
         destruct (svc_create svc i) as [[created errors]|e]
     end; simpl; [| done];
     destruct errors as [|er ers]; simpl;
     (destruct (getImageKey created) as [[k|]|e]; simpl; [| | done];
      (destruct created as [c|]; simpl; [| done]);
      [destruct (truthy_str k); simpl;
       [destruct (svc_getUrl svc 0 k); simpl |] |]; done)).
Qed.

(** Without another operation in between, the suspended run is the run. *)
Lemma createNote_during_alone w :
  createNote_during svc (mret ()) w = createNote svc w.
Proof.
  rewrite createNote_split. unfold createNote_during. run.
  by destruct (createNote_requests svc w) as [[r|e] w1].
Qed.

Lemma createNote_commit_notes (item : obj) w :
  notes (createNote_commit item w).2 = item :: notes w.
Proof. unfold createNote_commit. by run. Qed.

End Overlap.

(** C9. If the ids of the in-memory list are pairwise distinct, the record
    store lists records with pairwise distinct ids and the id of a created
    record is not an id of the in-memory list, then the ids of the list
    are pairwise distinct after fetchNotes, after createNote and after
    deleteNote of any id, whether the operation returns or throws, when
    the operation runs from its call to its end with no other list update
    in between. The prepend that ends createNote, on the list current when
    it runs, leaves pairwise distinct ids exactly when that list has them
    and does not hold the id of the new item. *)
Theorem unique_ids_preserved (svc : Services) (w : World) :
  unique_ids (notes w) →
  (∀ data errors, svc_list svc = Normal (data, errors) →
                  unique_ids (default [] data)) →
  (∀ input (c : obj) errors,
     svc_create svc input = Normal (Some c, errors) →
     get c "id" ∉ ids (notes w)) →
  unique_ids (notes (fetchNotes svc w).2) ∧
  unique_ids (notes (createNote svc w).2) ∧
  (∀ id, unique_ids (notes (deleteNote svc id w).2)) ∧
  createNote_during svc (mret ()) w = createNote svc w ∧
  (∀ (item : obj) (w' : World),
     unique_ids (notes (createNote_commit item w').2) ↔
     unique_ids (notes w') ∧ get item "id" ∉ ids (notes w')).
Proof.
  intros Hw Hlist Hfresh. split; [| split; [| split; [| split]]].
  - by apply fetchNotes_unique_ids.
  - by apply createNote_unique_ids.
  - intros id. by apply deleteNote_unique_ids.
  - apply createNote_during_alone.
  - intros item w'. rewrite createNote_commit_notes.
    unfold unique_ids, ids. rewrite fmap_cons, NoDup_cons. tauto.
Qed.

Lemma unique_ids_preserved_witness :
  unique_ids (notes (Sample.world Sample.titled)) ∧
  unique_ids (default [] (Some [Sample.note1; Sample.note2; Sample.note3])) ∧
  unique_ids
    (notes (createNote Sample.services (Sample.world Sample.titled)).2).
Proof.
  assert (H1 : unique_ids (notes (Sample.world Sample.titled))).
  { apply NoDup_singleton. }
  assert (H2 : unique_ids
                 (default [] (Some [Sample.note1; Sample.note2; Sample.note3]))).
  { apply (bool_decide_unpack _). vm_compute. exact I. }
  split; [exact H1 |]. split; [exact H2 |].
  refine (proj1 (proj2 (unique_ids_preserved Sample.services
            (Sample.world Sample.titled) H1 _ _))).
  - intros data errors Heq. injection Heq as <- _. exact H2.
  - intros input c errors Heq. injection Heq as <- _.
    unfold get. rewrite lookup_insert_eq.
    intros Hin. apply list_elem_of_singleton in Hin. discriminate Hin.
Defined.

(** C9, as the claim states it, fails when operations overlap. The list
    holds one note with distinct ids; the record store lists records with
    distinct ids and creates with an id that is not in the list. While
    createNote waits for the URL of the created record (line 133), a
    Refresh runs to its end and replaces the list by the records of the
    store, the created one among them; createNote then prepends its item
    (line 140) and the list holds the created id twice. *)
Lemma unique_ids_broken_by_overlapping_fetch :
  unique_ids (notes (Sample.world Sample.with_photo)) ∧
  (∀ data errors, svc_list Sample.grown = Normal (data, errors) →
                  unique_ids (default [] data)) ∧
  (∀ input (c : obj) errors,
     svc_create Sample.grown input = Normal (Some c, errors) →
     get c "id" ∉ ids (notes (Sample.world Sample.with_photo))) ∧
  ids (notes (createNote_during Sample.grown (fetchNotes Sample.grown)
                (Sample.world Sample.with_photo)).2)
  = [VStr (js "n9"); VStr (js "n2"); VStr (js "n9")] ∧
  ¬ unique_ids
      (notes (createNote_during Sample.grown (fetchNotes Sample.grown)
                (Sample.world Sample.with_photo)).2).
Proof.
  split; [apply NoDup_singleton |]. split; [| split; [| split]].
  - intros data errors Heq. injection Heq as <- _.
    apply (bool_decide_unpack _). vm_compute. exact I.
  - intros input c errors Heq. injection Heq as <- _.
    unfold get. rewrite lookup_insert_eq.
    intros Hin. apply list_elem_of_singleton in Hin. discriminate Hin.
  - vm_compute. reflexivity.
  - apply (bool_decide_unpack _). vm_compute. exact I.
Qed.

(* --------------------------------------------------------------------- *)
(* createNote when the record store reports errors                       *)
(* --------------------------------------------------------------------- *)

(** C2. When the record store answers the create call with errors and no
    record ([data] is null), createNote logs the errors and then throws a
    TypeError from the image-key detection on null: the operation does
    not return normally. The in-memory list and the form are unchanged. *)
Theorem createNote_refused_create_throws
    (svc : Services) (w : World) (errors : list jsstr) :
  ¬ blank (title (form w)) →
  upload_ok svc (form w) →
  svc_create svc (create_input svc (form w)) = Normal (None, errors) →
  errors ≠ [] →
  (createNote svc w).1 = Throw TypeError ∧
  notes (createNote svc w).2 = notes w ∧
  form (createNote svc w).2 = form w ∧
  trace (createNote svc w).2 =
    trace w ++ EvPreventDefault :: upload_events svc (form w) ++
    [EvCreate (create_input svc (form w));
     EvConsoleError "Create errors:" errors].
Proof.
  intros Hb Hu Hc He. rewrite (createNote_submit svc w Hb Hu). cbv zeta.
  rewrite Hc. cbn [fst snd notes form trace add_trace].
  do 3 (split; [done |]).
  destruct errors as [|er ers]; [done |]. simpl.
  by rewrite <- app_assoc.
Qed.

Lemma createNote_refused_create_throws_witness :
  ¬ blank (title (form (Sample.world Sample.titled))) ∧
  svc_create Sample.refusing
    (create_input Sample.refusing (form (Sample.world Sample.titled)))
  = Normal (None, [js "Unauthorized"]) ∧
  (createNote Sample.refusing (Sample.world Sample.titled)).1
  = Throw TypeError.
Proof.
  assert (Hb : ¬ blank (title (form (Sample.world Sample.titled)))).
  { intros H. inversion H as [|? ? _ H1]. inversion H1 as [|? ? Hc _].
    discriminate Hc. }
  split; [exact Hb |]. split; [reflexivity |].
  refine (proj1 (createNote_refused_create_throws Sample.refusing
            (Sample.world Sample.titled) [js "Unauthorized"]
            Hb I eq_refl _)).
  discriminate.
Defined.

(* ===================================================================== *)
(* Further properties of the workflow                                    *)
(* ===================================================================== *)

(* --------------------------------------------------------------------- *)
(* fetchNotes: which calls it makes, what it logs, what it forgets       *)
(* --------------------------------------------------------------------- *)

Section FetchMore.

Context (svc : Services).

Lemma getUrl_calls_app tr1 tr2 :
  getUrl_calls (tr1 ++ tr2) = getUrl_calls tr1 ++ getUrl_calls tr2.
Proof. apply omap_app. Qed.

Lemma console_output_app tr1 tr2 :
  console_output (tr1 ++ tr2) = console_output tr1 ++ console_output tr2.
Proof. apply omap_app. Qed.

Lemma getUrl_calls_logged label errors :
  getUrl_calls (logged label errors) = [].
Proof. by destruct errors. Qed.

Lemma getUrl_calls_enrich (l : list obj) :
  getUrl_calls (l ≫= enrich_calls) = omap resolvable l.
Proof.
  induction l as [|n l IH]; [done |].
  change ((n :: l) ≫= enrich_calls) with (enrich_calls n ++ l ≫= enrich_calls).
  rewrite getUrl_calls_app, IH. unfold enrich_calls.
  change (omap resolvable (n :: l))
    with (match resolvable n with
          | Some k => k :: omap resolvable l
          | None => omap resolvable l
          end).
  by destruct (resolvable n).
Qed.

Lemma console_output_enrich (l : list obj) :
  console_output (l ≫= enrich_calls) = [].
Proof.
  induction l as [|n l IH]; [done |].
  change ((n :: l) ≫= enrich_calls) with (enrich_calls n ++ l ≫= enrich_calls).
  rewrite console_output_app, IH. unfold enrich_calls.
  by destruct (resolvable n).
Qed.

Lemma console_output_logged label errors :
  console_output (logged label errors) =
    match errors with [] => [] | _ :: _ => [(label, errors)] end.
Proof. by destruct errors. Qed.

End FetchMore.

(** X1. When the list request returns, the URL resolution calls fetchNotes
    issues are one per record on which a non-empty image key is detected,
    for that key and in the order of the records; a record without such a
    key causes no call. *)
Theorem fetchNotes_resolution_calls
    (svc : Services) (w : World) (data : option (list obj))
    (errors : list jsstr) :
  svc_list svc = Normal (data, errors) →
  getUrl_calls (trace (fetchNotes svc w).2) =
    getUrl_calls (trace w) ++
    omap (λ n : obj,
            match getImageKey (Some n) with
            | Normal (Some k) => if truthy_str k then Some k else None
            | _ => None
            end) (default [] data).
Proof.
  intros Hlist. rewrite (fetchNotes_ok svc w data errors Hlist).
  cbn [snd trace]. rewrite !getUrl_calls_app.
  rewrite getUrl_calls_logged, getUrl_calls_enrich. simpl.
  by rewrite app_nil_r.
Qed.

Lemma fetchNotes_resolution_calls_witness :
  svc_list Sample.services =
    Normal (Some [Sample.note1; Sample.note2; Sample.note3], []) ∧
  getUrl_calls (trace (fetchNotes Sample.services
                         (Sample.world Sample.titled)).2)
  = [js "public/notes/1_a.png"; js "public/notes/3_c.png"].
Proof.
  split; [reflexivity |].
  exact (fetchNotes_resolution_calls Sample.services
           (Sample.world Sample.titled)
           (Some [Sample.note1; Sample.note2; Sample.note3]) [] eq_refl).
Defined.

(** X2. fetchNotes writes to the console only when the record store
    reports a non-empty list of errors next to its data: then exactly one
    entry, labelled "List errors:", with those errors. With no errors, and
    when the list request throws, it writes nothing. *)
Theorem fetchNotes_console_output (svc : Services) (w : World) :
  console_output (trace (fetchNotes svc w).2) =
    console_output (trace w) ++
    match svc_list svc with
    | Normal (_, e :: es) => [("List errors:", e :: es)]
    | _ => []
    end.
Proof.
  destruct (svc_list svc) as [[data errors]|e] eqn:Hlist.
  - rewrite (fetchNotes_ok svc w data errors Hlist). cbn [snd trace].
    rewrite !console_output_app, console_output_logged, console_output_enrich.
    by destruct errors.
  - rewrite (fetchNotes_throw svc w e Hlist). cbn [snd trace].
    by rewrite console_output_app.
Qed.

(** X3. When the record store answers the list request with null data,
    fetchNotes empties the in-memory list, makes no resolution call and
    returns normally. *)
Theorem fetchNotes_null_data
    (svc : Services) (w : World) (errors : list jsstr) :
  svc_list svc = Normal (None, errors) →
  (fetchNotes svc w).1 = Normal () ∧
  notes (fetchNotes svc w).2 = [] ∧
  getUrl_calls (trace (fetchNotes svc w).2) = getUrl_calls (trace w).
Proof.
  intros Hlist. rewrite (fetchNotes_ok svc w None errors Hlist).
  cbn [fst snd notes trace]. split; [done |]. split; [done |].
  rewrite !getUrl_calls_app, getUrl_calls_logged. simpl.
  by rewrite app_nil_r.
Qed.

Lemma fetchNotes_null_data_witness :
  svc_list Sample.denied_list = Normal (None, [js "Unauthorized"]) ∧
  notes (fetchNotes Sample.denied_list (Sample.world Sample.titled)).2 = [].
Proof.
  split; [reflexivity |].
  exact (proj1 (proj2 (fetchNotes_null_data Sample.denied_list
                         (Sample.world Sample.titled)
                         [js "Unauthorized"] eq_refl))).
Defined.

(** X4. When the list request returns, what fetchNotes leaves in the
    in-memory list does not depend on what the list held before; when it
    throws, the list is kept. A second fetch right after the first, which
    gets from the record store and from the blob store the answers the
    first one got, leaves the list the first one left. *)
Theorem fetchNotes_forgets_and_repeats
    (svc svc' : Services) (w w' : World) :
  svc_list svc' = svc_list svc →
  (∀ i k, svc_getUrl svc' i k = svc_getUrl svc i k) →
  match svc_list svc with
  | Normal _ => notes (fetchNotes svc w).2 = notes (fetchNotes svc w').2
  | Throw _ => notes (fetchNotes svc w).2 = notes w
  end ∧
  notes (fetchNotes svc' (fetchNotes svc w).2).2 = notes (fetchNotes svc w).2.
Proof.
  intros Hsame Hurl.
  destruct (svc_list svc) as [[data errors]|e] eqn:Hlist.
  - rewrite !(fetchNotes_ok svc _ data errors Hlist).
    rewrite (fetchNotes_ok svc' _ data errors Hsame). cbn [snd notes].
    split; [done |]. apply imap_ext. intros i n _.
    unfold enriched. destruct (resolvable n) as [k|]; [| done].
    by rewrite Hurl.
  - rewrite !(fetchNotes_throw svc _ e Hlist).
    by rewrite (fetchNotes_throw svc' _ e Hsame).
Qed.

Lemma fetchNotes_forgets_and_repeats_witness :
  svc_list Sample.refusing = svc_list Sample.services ∧
  notes (fetchNotes Sample.refusing
           (fetchNotes Sample.services (Sample.world Sample.titled)).2).2
  = notes (fetchNotes Sample.services (Sample.world Sample.titled)).2.
Proof.
  split; [reflexivity |].
  exact (proj2 (fetchNotes_forgets_and_repeats Sample.services Sample.refusing
                  (Sample.world Sample.titled) (Sample.world Sample.titled)
                  eq_refl (λ _ _, eq_refl))).
Defined.

Lemma omap_delete_None {A B} (f : A → option B) (l : list A) :
  ∀ i x, l !! i = Some x → f x = None → omap f l = omap f (delete i l).
Proof.
  induction l as [|y l IH]; intros i x Hi Hx; [done |].
  destruct i as [|i]; simpl in Hi.
  - injection Hi as ->. simpl. by rewrite Hx.
  - simpl. destruct (f y); [f_equal |]; by apply (IH i x).
Qed.

(** X5. An empty string under imageKey hides a key under image: the
    detection answers the empty string, so fetchNotes makes no resolution
    call for such a record (the calls of the run are those of the other
    records) and leaves it as the store returned it. *)
Theorem fetchNotes_empty_imageKey_hides_image
    (svc : Services) (w : World) (data : list obj) (errors : list jsstr)
    (i : nat) (n : obj) :
  svc_list svc = Normal (Some data, errors) →
  data !! i = Some n →
  n !! "imageKey" = Some (VStr []) →
  getImageKey (Some n) = Normal (Some []) ∧
  notes (fetchNotes svc w).2 !! i = Some n ∧
  getUrl_calls (trace (fetchNotes svc w).2) =
    getUrl_calls (trace w) ++
    omap (λ m : obj,
            match getImageKey (Some m) with
            | Normal (Some k) => if truthy_str k then Some k else None
            | _ => None
            end) (delete i data).
Proof.
  intros Hlist Hi Hk.
  assert (Hg : getImageKey (Some n) = Normal (Some [])).
  { unfold getImageKey, readStringProp, get. by rewrite Hk. }
  split; [done |]. split.
  - rewrite (fetchNotes_ok svc w (Some data) errors Hlist). cbn [snd notes].
    simpl. rewrite list_lookup_imap, Hi. simpl.
    unfold enriched, resolvable. by rewrite Hg.
  - rewrite (fetchNotes_ok svc w (Some data) errors Hlist).
    cbn [snd trace]. rewrite !getUrl_calls_app.
    rewrite getUrl_calls_logged, getUrl_calls_enrich. simpl.
    rewrite app_nil_r. f_equal.
    apply (omap_delete_None resolvable data i n Hi).
    unfold resolvable. by rewrite Hg.
Qed.

Lemma fetchNotes_empty_imageKey_hides_image_witness :
  Sample.shadowed !! "imageKey" = Some (VStr []) ∧
  notes (fetchNotes Sample.shadowing (Sample.world Sample.titled)).2 !! 0%nat
  = Some Sample.shadowed ∧
  getUrl_calls
    (trace (fetchNotes Sample.shadowing (Sample.world Sample.titled)).2) = [].
Proof.
  split; [reflexivity |].
  exact (proj2 (fetchNotes_empty_imageKey_hides_image Sample.shadowing
                  (Sample.world Sample.titled) [Sample.shadowed] [] 0
                  Sample.shadowed eq_refl eq_refl eq_refl)).
Defined.

(* --------------------------------------------------------------------- *)
(* createNote: the outcomes of the create call                           *)
(* --------------------------------------------------------------------- *)

(** X6. When the record store answers the create call with a record,
    with or without errors next to it, createNote returns normally, puts
    one new entry in front of the unchanged previous list and clears the
    form. The entry is the created record, with the resolved URL under
    imageUrl when a non-empty image key is detected on it and the
    resolution succeeds; a failed resolution is swallowed and the record
    is prepended as it is. The errors, if any, are logged once under
    "Create errors:". *)
Theorem createNote_created_prepended
    (svc : Services) (w : World) (c : obj) (errors : list jsstr) :
  ¬ blank (title (form w)) →
  upload_ok svc (form w) →
  svc_create svc (create_input svc (form w)) = Normal (Some c, errors) →
  (createNote svc w).1 = Normal () ∧
  (∃ d : obj,
     notes (createNote svc w).2 = d :: notes w ∧
     (∀ key, key ≠ "imageUrl" → d !! key = c !! key) ∧
     match getImageKey (Some c) with
     | Normal (Some k) =>
         if truthy_str k
         then match svc_getUrl svc 0 k with
              | Normal url => d = <["imageUrl" := VStr url]> c
              | Throw _ => d = c
              end
         else d = c
     | _ => d = c
     end) ∧
  form (createNote svc w).2 =
    {| title := []; content := Some []; imageFile := None |} ∧
  loading (createNote svc w).2 = loading w ∧
  console_output (trace (createNote svc w).2) =
    console_output (trace w) ++
    match errors with [] => [] | _ :: _ => [("Create errors:", errors)] end.
Proof.
  intros Hb Hu Hc. rewrite (createNote_submit svc w Hb Hu). cbv zeta.
  rewrite Hc. cbn [fst snd notes form loading trace].
  split; [done |]. split; [| split; [done |]; split; [done |]].
  - exists (enriched svc 0 c). split; [done |].
    split; [intros key Hkey; by apply enriched_other_keys |].
    unfold enriched, resolvable.
    destruct (getImageKey (Some c)) as [[k|]|e]; try done.
    destruct (truthy_str k); [| done].
    by destruct (svc_getUrl svc 0 k).
  - rewrite !console_output_app. simpl. rewrite !console_output_app.
    rewrite console_output_logged.
    assert (Hup : console_output (upload_events svc (form w)) = []).
    { unfold upload_events. by destruct (imageFile (form w)). }
    assert (Hen : console_output (enrich_calls c) = []).
    { unfold enrich_calls. by destruct (resolvable c). }
    rewrite Hup, Hen. simpl. by rewrite app_nil_r.
Qed.

Lemma createNote_created_prepended_witness :
  ¬ blank (title (form (Sample.world Sample.with_photo))) ∧
  upload_ok Sample.services (form (Sample.world Sample.with_photo)) ∧
  form (createNote Sample.services (Sample.world Sample.with_photo)).2
  = {| title := []; content := Some []; imageFile := None |}.
Proof.
  assert (Hb : ¬ blank (title (form (Sample.world Sample.with_photo)))).
  { intros H. inversion H as [|? ? Hc _]. discriminate Hc. }
  split; [exact Hb |]. split; [reflexivity |].
  exact (proj1 (proj2 (proj2 (createNote_created_prepended Sample.services
           (Sample.world Sample.with_photo) _ [] Hb eq_refl eq_refl)))).
Defined.

(** X7. When the create call itself throws, createNote throws the same
    exception and updates no state. The create call is the last event:
    an upload made before it is neither undone nor followed by any
    other call. *)
Theorem createNote_create_throws
    (svc : Services) (w : World) (e : exn) :
  ¬ blank (title (form w)) →
  upload_ok svc (form w) →
  svc_create svc (create_input svc (form w)) = Throw e →
  (createNote svc w).1 = Throw e ∧
  notes (createNote svc w).2 = notes w ∧
  form (createNote svc w).2 = form w ∧
  loading (createNote svc w).2 = loading w ∧
  trace (createNote svc w).2 =
    trace w ++ EvPreventDefault :: upload_events svc (form w) ++
    [EvCreate (create_input svc (form w))].
Proof.
  intros Hb Hu Hc. rewrite (createNote_submit svc w Hb Hu). cbv zeta.
  by rewrite Hc.
Qed.

Lemma createNote_create_throws_witness :
  ¬ blank (title (form (Sample.world Sample.with_photo))) ∧
  upload_ok Sample.unreachable (form (Sample.world Sample.with_photo)) ∧
  (createNote Sample.unreachable (Sample.world Sample.with_photo)).1
  = Throw (Rejected (js "NetworkError")).
Proof.
  assert (Hb : ¬ blank (title (form (Sample.world Sample.with_photo)))).
  { intros H. inversion H as [|? ? Hc _]. discriminate Hc. }
  split; [exact Hb |]. split; [reflexivity |].
  exact (proj1 (createNote_create_throws Sample.unreachable
           (Sample.world Sample.with_photo) _ Hb eq_refl eq_refl)).
Defined.

(** X8. After a createNote that returned normally the title of the form
    is blank (it was blank already, or the form has been cleared), so a
    second submit right after it, against any services, is a no-op: no
    call, no state update. *)
Theorem createNote_resubmit_noop (svc svc' : Services) (w : World) :
  (createNote svc w).1 = Normal () →
  createNote svc' (createNote svc w).2 =
    (Normal (), add_trace (createNote svc w).2 [EvPreventDefault]).
Proof.
  intros Hret. apply createNote_blank.
  destruct (decide (blank (title (form w)))) as [Hb|Hb].
  { by rewrite (createNote_blank svc w Hb). }
  assert (Hcases : upload_ok svc (form w) ∨
                   ∃ file e, imageFile (form w) = Some file ∧
                     svc_upload svc (imagePath (svc_now svc) (file_name file))
                       file = Throw e).
  { unfold upload_ok. destruct (imageFile (form w)) as [file|]; [| by left].
    destruct (svc_upload svc _ file) as [[]|e] eqn:Hu; [by left |].
    right. eauto. }
  destruct Hcases as [Hu | (file & e & Hf & Hu)].
  - rewrite (createNote_submit svc w Hb Hu) in Hret |- *. cbv zeta in *.
    destruct (svc_create svc (create_input svc (form w)))
      as [[[c|] errors]|e]; [| done | done].
    constructor.
  - by rewrite (createNote_upload_throw svc w file e Hb Hf Hu) in Hret.
Qed.

Lemma createNote_resubmit_noop_witness :
  (createNote Sample.services (Sample.world Sample.with_photo)).1
  = Normal () ∧
  notes (createNote Sample.refusing
           (createNote Sample.services (Sample.world Sample.with_photo)).2).2
  = notes (createNote Sample.services (Sample.world Sample.with_photo)).2.
Proof.
  split; [reflexivity |].
  exact (f_equal (λ r, notes r.2)
           (createNote_resubmit_noop Sample.services Sample.refusing
              (Sample.world Sample.with_photo) eq_refl)).
Defined.



(* --------------------------------------------------------------------- *)
(* deleteNote: edge cases and composition                                *)
(* --------------------------------------------------------------------- *)

Section DeleteMore.

Context (svc : Services).

Lemma notes_deleteNote w id :
  notes (deleteNote svc id w).2 =
    match svc_delete svc id with
    | Normal _ => filter (λ n, get n "id" ≠ VStr id) (notes w)
    | Throw _ => notes w
    end.
Proof.
  destruct (svc_delete svc id) as [[]|e] eqn:Hd.
  - by rewrite (deleteNote_ok svc w id Hd).
  - by rewrite (deleteNote_throw svc w id e Hd).
Qed.

Lemma filter_id_absent id (ns : list obj) :
  VStr id ∉ ids ns → filter (λ n, get n "id" ≠ VStr id) ns = ns.
Proof.
  induction ns as [|n ns IH]; [done |].
  unfold ids. rewrite fmap_cons, not_elem_of_cons. intros [Hn Hns].
  rewrite filter_cons_True by done. f_equal. by apply IH.
Qed.

Lemma filter_id_twice id (ns : list obj) :
  filter (λ n, get n "id" ≠ VStr id) (filter (λ n, get n "id" ≠ VStr id) ns)
  = filter (λ n, get n "id" ≠ VStr id) ns.
Proof.
  rewrite list_filter_filter. apply list_filter_iff. tauto.
Qed.

Lemma filter_id_comm a b (ns : list obj) :
  filter (λ n, get n "id" ≠ VStr a) (filter (λ n, get n "id" ≠ VStr b) ns)
  = filter (λ n, get n "id" ≠ VStr b) (filter (λ n, get n "id" ≠ VStr a) ns).
Proof.
  rewrite !list_filter_filter. apply list_filter_iff. tauto.
Qed.

Lemma filter_id_unique id (ns : list obj) : ∀ i (n : obj),
  unique_ids ns → ns !! i = Some n → get n "id" = VStr id →
  filter (λ n, get n "id" ≠ VStr id) ns = delete i ns.
Proof.
  unfold unique_ids, ids.
  induction ns as [|m ns IH]; intros i n Hnd Hi Hid; [done |].
  rewrite fmap_cons in Hnd. apply NoDup_cons in Hnd as [Hm Hnd].
  destruct i as [|i]; simpl in Hi.
  - injection Hi as ->. rewrite filter_cons_False by (intros H; by apply H).
    simpl. apply filter_id_absent. unfold ids. by rewrite <- Hid.
  - assert (Hne : get m "id" ≠ VStr id).
    { intros Hm'. apply Hm. rewrite Hm', <- Hid.
      apply (list_elem_of_fmap_2 (λ n : obj, get n "id")).
      apply list_elem_of_lookup. eauto. }
    rewrite filter_cons_True by done.
    simpl. f_equal. by apply (IH i n).
Qed.

End DeleteMore.

(** X10. Deleting an id that no element of the in-memory list carries
    still sends the delete request to the record store, and leaves the
    list as it was. *)
Theorem deleteNote_absent_id (svc : Services) (w : World) (id : jsstr) :
  VStr id ∉ ids (notes w) →
  notes (deleteNote svc id w).2 = notes w ∧
  ∃ rest, trace (deleteNote svc id w).2 = trace w ++ EvDelete id :: rest.
Proof.
  intros Habs. split.
  - rewrite notes_deleteNote. destruct (svc_delete svc id); [| done].
    by apply filter_id_absent.
  - destruct (svc_delete svc id) as [[]|e] eqn:Hd.
    + rewrite (deleteNote_ok svc w id Hd). simpl. eauto.
    + rewrite (deleteNote_throw svc w id e Hd). simpl. eauto.
Qed.

Lemma deleteNote_absent_id_witness :
  (VStr (js "n7") ∉ ids (notes (Sample.world Sample.titled))) ∧
  notes (deleteNote Sample.services (js "n7")
           (Sample.world Sample.titled)).2 = [Sample.note2].
Proof.
  assert (H : VStr (js "n7") ∉ ids (notes (Sample.world Sample.titled))).
  { intros Hin. apply list_elem_of_singleton in Hin. discriminate Hin. }
  split; [exact H |].
  exact (proj1 (deleteNote_absent_id Sample.services
                  (Sample.world Sample.titled) (js "n7") H)).
Defined.

(** X11. On the in-memory list: once a delete request for an id has been
    accepted, a second deleteNote of that id changes nothing, whatever
    the record store answers to it; after a rejected request, a retry
    acts as if it were the first attempt; and two deleteNote calls for
    two ids give the same list in either order, each request getting the
    answer it gets in the other order. The two calls may meet different
    answers of the record store. *)
Theorem deleteNote_repeats_and_commutes
    (svc1 svc2 : Services) (w : World) (a b : jsstr) :
  match svc_delete svc1 a with
  | Normal _ =>
      notes (deleteNote svc2 a (deleteNote svc1 a w).2).2
      = notes (deleteNote svc1 a w).2
  | Throw _ =>
      notes (deleteNote svc2 a (deleteNote svc1 a w).2).2
      = notes (deleteNote svc2 a w).2
  end ∧
  notes (deleteNote svc2 b (deleteNote svc1 a w).2).2
  = notes (deleteNote svc1 a (deleteNote svc2 b w).2).2.
Proof.
  rewrite !notes_deleteNote. split.
  - destruct (svc_delete svc1 a); [| done].
    destruct (svc_delete svc2 a); [| done]. apply filter_id_twice.
  - destruct (svc_delete svc1 a), (svc_delete svc2 b); try done.
    apply filter_id_comm.
Qed.

(** X12. When the ids of the in-memory list are pairwise distinct and the
    record store accepts the delete request, deleting the id of the
    element at position i removes that element and no other: the result
    is the list without position i, one element shorter. *)
Theorem deleteNote_removes_one
    (svc : Services) (w : World) (id : jsstr) (i : nat) (n : obj) :
  unique_ids (notes w) →
  notes w !! i = Some n →
  get n "id" = VStr id →
  svc_delete svc id = Normal () →
  notes (deleteNote svc id w).2 = delete i (notes w) ∧
  S (length (notes (deleteNote svc id w).2)) = length (notes w).
Proof.
  intros Hnd Hi Hid Hd.
  assert (Hn : notes (deleteNote svc id w).2 = delete i (notes w)).
  { rewrite notes_deleteNote, Hd. by apply (filter_id_unique id _ i n). }
  split; [done |]. rewrite Hn, length_delete by eauto.
  apply lookup_lt_Some in Hi. lia.
Qed.

Lemma deleteNote_removes_one_witness :
  unique_ids [Sample.note1; Sample.note2; Sample.note3] ∧
  notes (deleteNote Sample.services (js "n2")
           {| notes := [Sample.note1; Sample.note2; Sample.note3];
              loading := false; form := Sample.titled; trace := [] |}).2
  = [Sample.note1; Sample.note3].
Proof.
  assert (H : unique_ids [Sample.note1; Sample.note2; Sample.note3]).
  { apply (bool_decide_unpack _). vm_compute. exact I. }
  split; [exact H |].
  exact (proj1 (deleteNote_removes_one Sample.services
           {| notes := [Sample.note1; Sample.note2; Sample.note3];
              loading := false; form := Sample.titled; trace := [] |}
           (js "n2") 1 Sample.note2 H eq_refl eq_refl eq_refl)).
Defined.

(** X13. Creating a note and then deleting it by the id of the created
    record gives back the in-memory list from before the creation,
    provided that id is a string no element of the list carried and the
    record store accepts the delete request. *)
Theorem createNote_then_deleteNote
    (svc : Services) (w : World) (c : obj) (errors : list jsstr)
    (id : jsstr) :
  ¬ blank (title (form w)) →
  upload_ok svc (form w) →
  svc_create svc (create_input svc (form w)) = Normal (Some c, errors) →
  get c "id" = VStr id →
  VStr id ∉ ids (notes w) →
  svc_delete svc id = Normal () →
  notes (deleteNote svc id (createNote svc w).2).2 = notes w.
Proof.
  intros Hb Hu Hc Hid Hfresh Hd.
  rewrite notes_deleteNote, Hd.
  rewrite (createNote_submit svc w Hb Hu). cbv zeta. rewrite Hc.
  cbn [snd notes].
  rewrite filter_cons_False.
  - by apply filter_id_absent.
  - intros H. apply H. by rewrite enriched_id.
Qed.

Lemma createNote_then_deleteNote_witness :
  ¬ blank (title (form (Sample.world Sample.with_photo))) ∧
  (VStr (js "n9") ∉ ids (notes (Sample.world Sample.with_photo))) ∧
  notes (deleteNote Sample.services (js "n9")
           (createNote Sample.services
              (Sample.world Sample.with_photo)).2).2
  = [Sample.note2].
Proof.
  assert (Hb : ¬ blank (title (form (Sample.world Sample.with_photo)))).
  { intros H. inversion H as [|? ? Hc _]. discriminate Hc. }
  assert (Hf : VStr (js "n9") ∉ ids (notes (Sample.world Sample.with_photo))).
  { intros Hin. apply list_elem_of_singleton in Hin. discriminate Hin. }
  split; [exact Hb |]. split; [exact Hf |].
  exact (createNote_then_deleteNote Sample.services
           (Sample.world Sample.with_photo) _ [] (js "n9")
           Hb eq_refl eq_refl eq_refl Hf eq_refl).
Defined.

(* --------------------------------------------------------------------- *)
(* What each operation leaves alone                                      *)
(* --------------------------------------------------------------------- *)

Section Frames.

Context (svc : Services).

(** The three ways a submit can go before the create call. *)
Lemma createNote_cases w :
  blank (title (form w)) ∨
  (¬ blank (title (form w)) ∧ upload_ok svc (form w)) ∨
  (¬ blank (title (form w)) ∧
   ∃ file e, imageFile (form w) = Some file ∧
     svc_upload svc (imagePath (svc_now svc) (file_name file)) file
     = Throw e).
Proof.
  destruct (decide (blank (title (form w)))) as [Hb|Hb]; [by left |].
  right. unfold upload_ok.
  destruct (imageFile (form w)) as [file|]; [| by left].
  destruct (svc_upload svc _ file) as [[]|e] eqn:Hu; [by left |].
  right. eauto.
Qed.

(** The events a submit appends. *)
Lemma createNote_events w :
  ∃ evs,
    trace (createNote svc w).2 = trace w ++ evs ∧
    loading (createNote svc w).2 = loading w ∧
    Forall (λ e, is_list_call e = false ∧ is_delete_call e = false) evs.
Proof.
  destruct (createNote_cases w) as [Hb | [[Hb Hu] | [Hb (file & e & Hf & Hu)]]].
  - rewrite (createNote_blank svc w Hb). eexists. split; [done |].
    split; [done |]. by repeat constructor.
  - eexists. split; [apply (createNote_trace svc w Hb Hu) |]. split.
    + rewrite (createNote_submit svc w Hb Hu). cbv zeta.
      by destruct (svc_create svc (create_input svc (form w)))
        as [[[c|] errors]|e].
    + apply Forall_cons. split; [done |].
      apply Forall_app. split.
      * unfold upload_events. destruct (imageFile (form w));
          by repeat constructor.
      * apply Forall_cons. split; [done |].
        apply Forall_forall. intros e He.
        apply after_create_events in He.
        destruct He as [[? ->] | [[? ->] | [[? ->] | [[? ->] | ->]]]]; done.
  - rewrite (createNote_upload_throw svc w file e Hb Hf Hu).
    eexists. split; [done |]. split; [done |]. by repeat constructor.
Qed.

Lemma fetchNotes_events w :
  ∃ evs,
    trace (fetchNotes svc w).2 = trace w ++ evs ∧
    form (fetchNotes svc w).2 = form w ∧
    Forall (λ e, is_create_call e = false ∧ is_delete_call e = false ∧
                 is_upload_call e = false) evs.
Proof.
  destruct (svc_list svc) as [[data errors]|e] eqn:Hlist.
  - rewrite (fetchNotes_ok svc w data errors Hlist). eexists.
    split; [done |]. split; [done |].
    do 2 (apply Forall_cons; split; [done |]).
    apply Forall_app. split.
    { apply Forall_forall. by intros e ->%logged_console. }
    apply Forall_app. split; [| by repeat constructor].
    apply Forall_forall. intros e He.
    by apply enrich_calls_getUrl in He as [k ->].
  - rewrite (fetchNotes_throw svc w e Hlist). eexists.
    split; [done |]. split; [done |]. by repeat constructor.
Qed.

End Frames.

(** X14. fetchNotes keeps the form, createNote keeps the loading
    indicator, deleteNote keeps both, and all three only add events at
    the end of the trace. *)
Theorem operations_frame (svc : Services) (w : World) (id : jsstr) :
  (form (fetchNotes svc w).2 = form w ∧
   trace w `prefix_of` trace (fetchNotes svc w).2) ∧
  (loading (createNote svc w).2 = loading w ∧
   trace w `prefix_of` trace (createNote svc w).2) ∧
  (form (deleteNote svc id w).2 = form w ∧
   loading (deleteNote svc id w).2 = loading w ∧
   trace w `prefix_of` trace (deleteNote svc id w).2).
Proof.
  split; [| split].
  - destruct (fetchNotes_events svc w) as (evs & Ht & Hf & _).
    split; [done |]. rewrite Ht. by exists evs.
  - destruct (createNote_events svc w) as (evs & Ht & Hl & _).
    split; [done |]. rewrite Ht. by exists evs.
  - destruct (svc_delete svc id) as [[]|e] eqn:Hd.
    + rewrite (deleteNote_ok svc w id Hd). cbn [snd form loading trace].
      split; [done |]. split; [done |]. by eexists.
    + rewrite (deleteNote_throw svc w id e Hd). cbn [snd form loading trace].
      split; [done |]. split; [done |]. by eexists.
Qed.

(** X15. Among the events an operation adds to the trace: fetchNotes never
    calls create, delete or upload; createNote never calls list or
    delete; deleteNote makes exactly one delete call and no list, create,
    upload or URL resolution call, so it never touches the blob store. *)
Theorem operations_calls (svc : Services) (w : World) (id : jsstr) :
  (∃ evs,
     trace (fetchNotes svc w).2 = trace w ++ evs ∧
     Forall (λ e, is_create_call e = false ∧ is_delete_call e = false ∧
                  is_upload_call e = false) evs) ∧
  (∃ evs,
     trace (createNote svc w).2 = trace w ++ evs ∧
     Forall (λ e, is_list_call e = false ∧ is_delete_call e = false) evs) ∧
  (∃ evs,
     trace (deleteNote svc id w).2 = trace w ++ evs ∧
     Forall (λ e, is_list_call e = false ∧ is_create_call e = false ∧
                  is_upload_call e = false ∧ is_getUrl_call e = false) evs ∧
     length (filter (λ e, is_delete_call e = true) evs) = 1%nat).
Proof.
  split; [| split].
  - destruct (fetchNotes_events svc w) as (evs & Ht & _ & Hev). eauto.
  - destruct (createNote_events svc w) as (evs & Ht & _ & Hev). eauto.
  - destruct (svc_delete svc id) as [[]|e] eqn:Hd.
    + rewrite (deleteNote_ok svc w id Hd). cbn [snd trace].
      eexists. split; [done |]. split; [by repeat constructor | done].
    + rewrite (deleteNote_throw svc w id e Hd). cbn [snd trace].
      eexists. split; [done |]. split; [by repeat constructor | done].
Qed.

(* --------------------------------------------------------------------- *)
(* The helpers: payload and key detection                                *)
(* --------------------------------------------------------------------- *)

(** X16. The payload buildCreateInput makes for a non-empty key has
    exactly the properties title, content, imageKey and image; without a
    key it has exactly title and content, and an empty string as key is
    treated like no key. *)
Theorem buildCreateInput_properties (base : Base) (k : jsstr) :
  k ≠ [] →
  dom (buildCreateInput base (Some k))
    = ({[ "title"; "content"; "imageKey"; "image" ]} : gset string) ∧
  dom (buildCreateInput base None)
    = ({[ "title"; "content" ]} : gset string) ∧
  buildCreateInput base (Some []) = buildCreateInput base None.
Proof.
  intros Hk. unfold buildCreateInput, spread_base.
  destruct k as [|c k]; [done |]. simpl.
  rewrite !dom_insert_L, dom_empty_L.
  split; [set_solver |]. split; [set_solver | done].
Qed.

Lemma buildCreateInput_properties_witness :
  js "public/notes/1_a.png" ≠ [] ∧
  dom (buildCreateInput {| base_title := js "first"; base_content := None |}
         (Some (js "public/notes/1_a.png")))
  = ({[ "title"; "content"; "imageKey"; "image" ]} : gset string).
Proof.
  assert (Hk : js "public/notes/1_a.png" ≠ []) by (simpl; discriminate).
  split; [exact Hk |].
  exact (proj1 (buildCreateInput_properties
                  {| base_title := js "first"; base_content := None |}
                  (js "public/notes/1_a.png") Hk)).
Defined.

(** X17. getImageKey throws a TypeError on null and never throws on an
    object. On an object the detected key is always the string stored
    under imageKey or under image, and no key is detected exactly when
    neither property holds a string (missing, null, a number, ...). *)
Theorem getImageKey_detects (n : obj) :
  getImageKey None = Throw TypeError ∧
  (∃ r, getImageKey (Some n) = Normal r ∧
        ∀ s, r = Some s →
             n !! "imageKey" = Some (VStr s) ∨ n !! "image" = Some (VStr s)) ∧
  (getImageKey (Some n) = Normal None ↔
     (∀ s, n !! "imageKey" ≠ Some (VStr s)) ∧
     (∀ s, n !! "image" ≠ Some (VStr s))).
Proof.
  split; [done |].
  assert (Hcase : (∃ s, n !! "imageKey" = Some (VStr s)) ∨
                  (∀ s, n !! "imageKey" ≠ Some (VStr s))).
  { destruct (n !! "imageKey") as [[| | | |s]|]; eauto; by right. }
  destruct Hcase as [[s Hs] | Hno].
  - rewrite (getImageKey_imageKey n s Hs). split.
    + exists (Some s). split; [done |]. intros ? [= <-]. by left.
    + split; [done |]. intros [H _]. by destruct (H s).
  - rewrite (getImageKey_fallback n Hno).
    destruct (n !! "image") as [[| | | |s']|] eqn:Hi;
      (split;
       [ eexists; split; [reflexivity |]; intros ? [= <-]; by right
       | split;
         [ (intros _; by split) || (by intros [=])
         | intros [_ H2]; done || by destruct (H2 s') ] ]).
Qed.

(* --------------------------------------------------------------------- *)
(* The upload key determines the time and the file name                  *)
(* --------------------------------------------------------------------- *)

Section UploadKey.

Lemma uint_digits_range d c :
  c ∈ uint_digits d → (48 ≤ c ∧ c ≤ 57)%N.
Proof.
  induction d; simpl; intros H;
    try (by apply elem_of_nil in H);
    apply elem_of_cons in H as [-> | H]; auto; lia.
Qed.

Lemma uint_digits_inj d : ∀ d', uint_digits d = uint_digits d' → d = d'.
Proof.
  induction d; intros [] H; simpl in H; try discriminate; try done;
    f_equal; apply IHd; congruence.
Qed.

Lemma to_uint_inj p q : Pos.to_uint p = Pos.to_uint q → p = q.
Proof.
  intros H. apply (f_equal Pos.of_uint) in H.
  rewrite !DecimalPos.Unsigned.of_to in H. congruence.
Qed.

Lemma to_uint_not_zero p : Pos.to_uint p ≠ Decimal.D0 Decimal.Nil.
Proof.
  intros H. apply (f_equal Pos.of_uint) in H.
  rewrite DecimalPos.Unsigned.of_to in H. discriminate H.
Qed.

Lemma number_toString_inj z z' :
  number_toString z = number_toString z' → z = z'.
Proof.
  assert (Hsign : ∀ p l, uint_digits (Pos.to_uint p) ≠ 45%N :: l).
  { intros p l H.
    assert (Hin : 45%N ∈ uint_digits (Pos.to_uint p))
      by (rewrite H; apply list_elem_of_here).
    apply uint_digits_range in Hin. lia. }
  assert (Hzero : ∀ p, uint_digits (Pos.to_uint p) ≠ [48%N]).
  { intros p H. apply (to_uint_not_zero p).
    by apply uint_digits_inj. }
  destruct z as [|p|p], z' as [|q|q]; simpl; intros H; try done.
  - by destruct (Hzero q).
  - by destruct (Hzero p).
  - f_equal. by apply to_uint_inj, uint_digits_inj.
  - by destruct (Hsign p _ H).
  - by destruct (Hsign q _ (eq_sym H)).
  - injection H as H. f_equal. by apply to_uint_inj, uint_digits_inj.
Qed.

Lemma number_toString_no_underscore z : 95%N ∉ number_toString z.
Proof.
  destruct z as [|p|p]; simpl.
  - intros H. apply list_elem_of_singleton in H. discriminate H.
  - intros H. apply uint_digits_range in H. lia.
  - intros H. apply elem_of_cons in H as [H | H]; [discriminate H |].
    apply uint_digits_range in H. lia.
Qed.

End UploadKey.

(** X18. The upload key tells the time and the file name apart: two keys
    are equal only if they were made in the same millisecond for the same
    file name. *)
Theorem imagePath_injective (now now' : Z) (name name' : jsstr) :
  imagePath now name = imagePath now' name' →
  now = now' ∧ name = name'.
Proof.
  unfold imagePath. intros H. apply app_inv_head in H.
  change (js "_" ++ name) with (95%N :: name) in H.
  change (js "_" ++ name') with (95%N :: name') in H.
  apply not_elem_of_app_cons_inv_l in H;
    [| apply number_toString_no_underscore
     | apply number_toString_no_underscore].
  destruct H as (Hn & _ & Hname).
  split; [by apply number_toString_inj | done].
Qed.

Lemma imagePath_injective_witness :
  imagePath 1700000000000 (js "cat.png")
  = js "public/notes/" ++ js "1700000000000_cat.png" ∧
  1700000000000 = 1700000000000.
Proof.
  split; [reflexivity |].
  exact (proj1 (imagePath_injective 1700000000000 1700000000000
                  (js "cat.png") (js "cat.png") eq_refl)).
Defined.

(* --------------------------------------------------------------------- *)
(* The form inputs                                                       *)
(* --------------------------------------------------------------------- *)

(** X20. Each input handler sets its own field of the form and keeps the
    other two, the list and the loading indicator. Filling the three
    inputs leaves the typed title, the typed content and the first chosen
    file in the form, whatever it held before, and any two handlers give
    the same form in either order. A null or empty file selection
    removes the file. *)
Theorem form_inputs_compose
    (w : World) (t c : jsstr) (files : option (list File)) :
  form ((onTitleChange t;; onContentChange c;; onFileChange files) w).2
    = {| title := t; content := Some c; imageFile := files ≫= head |} ∧
  (form ((onTitleChange t;; onContentChange c) w).2
     = form ((onContentChange c;; onTitleChange t) w).2 ∧
   form ((onTitleChange t;; onFileChange files) w).2
     = form ((onFileChange files;; onTitleChange t) w).2 ∧
   form ((onContentChange c;; onFileChange files) w).2
     = form ((onFileChange files;; onContentChange c) w).2) ∧
  (form (onTitleChange t w).2
     = {| title := t; content := content (form w);
          imageFile := imageFile (form w) |} ∧
   form (onContentChange c w).2
     = {| title := title (form w); content := Some c;
          imageFile := imageFile (form w) |} ∧
   form (onFileChange files w).2
     = {| title := title (form w); content := content (form w);
          imageFile := files ≫= head |}) ∧
  (imageFile (form (onFileChange None w).2) = None ∧
   imageFile (form (onFileChange (Some []) w).2) = None) ∧
  (notes ((onTitleChange t;; onContentChange c;; onFileChange files) w).2
     = notes w ∧
   loading ((onTitleChange t;; onContentChange c;; onFileChange files) w).2
     = loading w).
Proof.
  unfold onTitleChange, onContentChange, onFileChange, setForm_with.
  run. done.
Qed.

(* --------------------------------------------------------------------- *)
(* The rendered notes section                                            *)
(* --------------------------------------------------------------------- *)

(** X21. After fetchNotes, returned or thrown, the Refresh button is
    enabled and labelled "Refresh". When the list request returned, the
    section shows one item per record, and the hint for an empty list
    exactly when the record store returned no record. *)
Theorem renderNotes_after_fetchNotes (svc : Services) (w : World) :
  refresh_disabled (renderNotes (fetchNotes svc w).2) = false ∧
  refresh_label (renderNotes (fetchNotes svc w).2) = "Refresh" ∧
  match svc_list svc with
  | Normal (data, _) =>
      length (list_items (renderNotes (fetchNotes svc w).2))
        = length (default [] data) ∧
      empty_hint (renderNotes (fetchNotes svc w).2)
        = bool_decide (default [] data = [])
  | Throw _ =>
      list_items (renderNotes (fetchNotes svc w).2)
        = list_items (renderNotes w)
  end.
Proof.
  destruct (svc_list svc) as [[data errors]|e] eqn:Hlist.
  - rewrite (fetchNotes_ok svc w data errors Hlist).
    unfold renderNotes. cbn [snd notes loading refresh_disabled refresh_label
                             empty_hint list_items].
    split; [done |]. split; [done |].
    rewrite length_fmap, length_imap. split; [done |].
    by destruct (default [] data).
  - by rewrite (fetchNotes_throw svc w e Hlist).
Qed.

(** X22. After a fetchNotes whose list request returned, the item at the
    position of a record (one that carries no imageUrl of its own) has the
    id of the record as key and as the argument of its Delete button, and
    the title of the record as heading. It shows a picture, with the
    resolved URL as source and the title as alternative text, when a
    non-empty key was detected and resolved to a non-empty URL; in every
    other case it shows the placeholder. *)
Theorem renderNotes_item_after_fetchNotes
    (svc : Services) (w : World) (data : option (list obj))
    (errors : list jsstr) (i : nat) (n : obj) :
  svc_list svc = Normal (data, errors) →
  default [] data !! i = Some n →
  n !! "imageUrl" = None →
  ∃ item,
    list_items (renderNotes (fetchNotes svc w).2) !! i = Some item ∧
    li_key item = get n "id" ∧
    li_delete item = get n "id" ∧
    li_title item = get n "title" ∧
    li_thumb item =
      match getImageKey (Some n) with
      | Normal (Some k) =>
          if truthy_str k
          then match svc_getUrl svc i k with
               | Normal url =>
                   if truthy_str url
                   then Img (VStr url) (get n "title") else NoImage
               | Throw _ => NoImage
               end
          else NoImage
      | _ => NoImage
      end.
Proof.
  intros Hlist Hi Hnone.
  rewrite (fetchNotes_ok svc w data errors Hlist).
  unfold renderNotes. cbn [snd notes list_items].
  exists (renderNote (enriched svc i n)).
  rewrite list_lookup_fmap, list_lookup_imap, Hi. split; [done |].
  unfold renderNote. cbn [li_key li_delete li_title li_thumb].
  assert (Hget : ∀ key, key ≠ "imageUrl" →
                        get (enriched svc i n) key = get n key).
  { intros key Hkey. unfold get. by rewrite enriched_other_keys. }
  rewrite !Hget by done. do 3 (split; [done |]).
  unfold get at 1 2. rewrite (enriched_imageUrl svc i n Hnone).
  unfold resolvable.
  destruct (getImageKey (Some n)) as [[k|]|e]; try done.
  destruct (truthy_str k); [| done].
  destruct (svc_getUrl svc i k) as [url|e]; [| done]. simpl.
  by destruct (truthy_str url).
Qed.

Lemma renderNotes_item_after_fetchNotes_witness :
  Sample.note1 !! "imageUrl" = None ∧
  ∃ item,
    list_items (renderNotes (fetchNotes Sample.services
                               (Sample.world Sample.titled)).2) !! 0%nat
    = Some item ∧
    li_thumb item =
      Img (VStr (js "https://blobs.example/public/notes/1_a.png"))
          (VStr (js "first")).
Proof.
  split; [reflexivity |].
  destruct (renderNotes_item_after_fetchNotes Sample.services
              (Sample.world Sample.titled)
              (Some [Sample.note1; Sample.note2; Sample.note3]) [] 0
              Sample.note1 eq_refl eq_refl eq_refl)
    as (item & Hitem & _ & _ & _ & Hthumb).
  exists item. split; [exact Hitem | exact Hthumb].
Defined.

(** X23. When the ids of the in-memory list are pairwise distinct and the
    record store accepts the delete request, pressing the Delete button
    of an item (deleteNote with the id the item carries) removes that
    item from the rendered list and keeps the others, in order. *)
Theorem renderNotes_delete_button
    (svc : Services) (w : World) (i : nat) (item : NoteItem) (id : jsstr) :
  unique_ids (notes w) →
  list_items (renderNotes w) !! i = Some item →
  li_delete item = VStr id →
  svc_delete svc id = Normal () →
  list_items (renderNotes (deleteNote svc id w).2)
  = delete i (list_items (renderNotes w)).
Proof.
  intros Hnd Hi Hid Hd. unfold renderNotes in *. cbn [list_items] in *.
  rewrite list_lookup_fmap in Hi.
  destruct (notes w !! i) as [n|] eqn:Hn; [| done].
  injection Hi as <-. cbn [renderNote li_delete] in Hid.
  rewrite notes_deleteNote, Hd.
  rewrite (filter_id_unique id (notes w) i n Hnd Hn Hid).
  apply list_fmap_delete.
Qed.

Lemma renderNotes_delete_button_witness :
  unique_ids [Sample.note1; Sample.note2; Sample.note3] ∧
  list_items
    (renderNotes
       (deleteNote Sample.services (js "n1")
          {| notes := [Sample.note1; Sample.note2; Sample.note3];
             loading := false; form := Sample.titled; trace := [] |}).2)
  = [renderNote Sample.note2; renderNote Sample.note3].
Proof.
  assert (H : unique_ids [Sample.note1; Sample.note2; Sample.note3]).
  { apply (bool_decide_unpack _). vm_compute. exact I. }
  split; [exact H |].
  exact (renderNotes_delete_button Sample.services
           {| notes := [Sample.note1; Sample.note2; Sample.note3];
              loading := false; form := Sample.titled; trace := [] |}
           0 (renderNote Sample.note1) (js "n1") H eq_refl eq_refl eq_refl).
Defined.
